(** * users: validation of user accounts (users/users.go)

    A shallow embedding of [User.Validate] and of the e-mail predicate
    [isEmail], together with the pieces of the Go runtime they rest on:
    byte strings and [strings.Split], the three compiled patterns and
    [Regexp.MatchString], and the package-level store the patterns live in.
    The IDNA conversion [idna.ToASCII] is an external collaborator; the
    development is parametric in it. *)

From Stdlib Require Import ZArith Lia List Bool Ascii String.
From stdpp Require Import gmap strings.
Import ListNotations.

Local Open Scope string_scope.
Local Open Scope Z_scope.

#[local] Arguments String.append : simpl nomatch.

(** ** Go strings

    A Go [string] is a sequence of bytes; [len] counts bytes. *)

Module GoString.

Definition len (s : string) : Z := Z.of_nat (String.length s).

Definition isEmpty (s : string) : bool :=
  match s with EmptyString => true | String _ _ => false end.

Fixpoint all (p : ascii -> bool) (s : string) : bool :=
  match s with
  | EmptyString => true
  | String c s' => p c && all p s'
  end.

Fixpoint count (c : ascii) (s : string) : nat :=
  match s with
  | EmptyString => O
  | String a s' => ((if Ascii.eqb a c then 1 else 0) + count c s')%nat
  end.

(** [strings.HasPrefix s p]. *)
Definition HasPrefix (s p : string) : bool := String.prefix p s.

(** [strings.HasSuffix s "."], [strings.Contains s ".."] for the one byte
    the package cares about: used to phrase properties of local parts. *)
Fixpoint endsWith (c : ascii) (s : string) : bool :=
  match s with
  | EmptyString => false
  | String a EmptyString => Ascii.eqb a c
  | String _ s' => endsWith c s'
  end.

Fixpoint hasDouble (c : ascii) (s : string) : bool :=
  match s with
  | EmptyString => false
  | String a s' =>
      (Ascii.eqb a c && match s' with
                        | String b _ => Ascii.eqb b c
                        | EmptyString => false
                        end) || hasDouble c s'
  end.

Definition startsWith (c : ascii) (s : string) : bool :=
  match s with
  | String a _ => Ascii.eqb a c
  | EmptyString => false
  end.

Definition pushHead (c : ascii) (l : list string) : list string :=
  match l with
  | p :: ps => String c p :: ps
  | [] => [String c EmptyString]
  end.

(** [strings.Split s sep] for a non-empty separator: the pieces of [s]
    between the successive, non-overlapping occurrences of [sep], scanning
    from the left. [skip] counts the bytes of a separator occurrence still
    to be stepped over. *)
Fixpoint splitFrom (sep : string) (skip : nat) (s : string) : list string :=
  match s with
  | EmptyString => [EmptyString]
  | String c s' =>
      match skip with
      | S k => splitFrom sep k s'
      | O =>
          if HasPrefix s sep
          then EmptyString :: splitFrom sep (String.length sep - 1) s'
          else pushHead c (splitFrom sep 0 s')
      end
  end.

Definition Split (s sep : string) : list string := splitFrom sep 0 s.

(** Slice indexing [a[i]] on a slice already known to be long enough. *)
Definition index (a : list string) (i : nat) : string := nth i a EmptyString.

End GoString.

Import GoString.

(** ** Regular expressions

    The syntax of the compiled patterns and [Regexp.MatchString]. Subjects
    are matched byte by byte. The three patterns of the package name ASCII
    characters only, and their one negated class stands under [+], so
    byte-wise matching accepts the same subjects as matching by code point. *)

Module Regexp.

(** Items of a bracket expression. [PerlSpace] is [\s], that is
    tab, newline, form feed, carriage return and space. *)
Inductive item : Type :=
| Chr (c : ascii)
| Range (lo hi : ascii)
| PerlSpace.

Definition code (c : ascii) : N := N_of_ascii c.

Definition itemMatch (i : item) (c : ascii) : bool :=
  match i with
  | Chr a => Ascii.eqb a c
  | Range lo hi => (code lo <=? code c)%N && (code c <=? code hi)%N
  | PerlSpace =>
      (code c =? 9)%N || (code c =? 10)%N || (code c =? 12)%N
      || (code c =? 13)%N || (code c =? 32)%N
  end.

(** [negated = true] is a class written [[^...]]. *)
Definition classMatch (negated : bool) (items : list item) (c : ascii) : bool :=
  xorb negated (existsb (fun i => itemMatch i c) items).

Inductive regexp : Type :=
| Void                                   (* matches nothing *)
| Eps                                    (* the empty pattern *)
| Class (negated : bool) (items : list item)
| Bol                                    (* ^ : beginning of text *)
| Eol                                    (* $ : end of text *)
| Cat (a b : regexp)
| Alt (a b : regexp)
| Star (a : regexp).

(** Derived forms. A capturing group does not change what matches. *)
Definition Lit (c : ascii) : regexp := Class false [Chr c].
Definition AnyByte : regexp := Class true [].
Definition Plus (a : regexp) : regexp := Cat a (Star a).
Definition Group (a : regexp) : regexp := a.

(** [a{n}] *)
Fixpoint Times (n : nat) (a : regexp) : regexp :=
  match n with
  | O => Eps
  | S k => Cat a (Times k a)
  end.

(** [a{n,}] *)
Definition AtLeast (n : nat) (a : regexp) : regexp := Cat (Times n a) (Star a).

(** [nullable bot eot r]: [r] matches the empty string at a position that
    is the beginning of the text iff [bot], and its end iff [eot]. *)
Fixpoint nullable (bot eot : bool) (r : regexp) : bool :=
  match r with
  | Void => false
  | Eps => true
  | Class _ _ => false
  | Bol => bot
  | Eol => eot
  | Cat a b => nullable bot eot a && nullable bot eot b
  | Alt a b => nullable bot eot a || nullable bot eot b
  | Star _ => true
  end.

Definition cat (a b : regexp) : regexp :=
  match a with
  | Void => Void
  | Eps => b
  | _ => Cat a b
  end.

Definition alt (a b : regexp) : regexp :=
  match a, b with
  | Void, _ => b
  | _, Void => a
  | _, _ => Alt a b
  end.

(** [deriv bot c r]: what remains of [r] once the byte [c], standing at a
    position that is the beginning of the text iff [bot], has been read. *)
Fixpoint deriv (bot : bool) (c : ascii) (r : regexp) : regexp :=
  match r with
  | Void | Eps | Bol | Eol => Void
  | Class n items => if classMatch n items c then Eps else Void
  | Cat a b =>
      alt (cat (deriv bot c a) b)
          (if nullable bot false a then deriv bot c b else Void)
  | Alt a b => alt (deriv bot c a) (deriv bot c b)
  | Star a => cat (deriv bot c a) (Star a)
  end.

(** [r] matches the whole of [s], which runs to the end of the text and
    starts at its beginning iff [bot]. *)
Fixpoint matchAll (r : regexp) (bot : bool) (s : string) : bool :=
  match s with
  | EmptyString => nullable bot true r
  | String c s' => matchAll (deriv bot c r) false s'
  end.

(** [re.MatchString(s)]: [s] contains a match of [re]. *)
Definition MatchString (re : regexp) (s : string) : bool :=
  matchAll (Cat (Star AnyByte) (Cat re (Star AnyByte))) true s.

(** Declarative reading: [Matches r bot eot w] says that [r] matches the
    piece [w] of a text, where the piece starts at the beginning of the text
    iff [bot] and stops at its end iff [eot]. *)
Inductive Matches : regexp -> bool -> bool -> string -> Prop :=
| MEps bot eot : Matches Eps bot eot EmptyString
| MClass n items bot eot c :
    classMatch n items c = true ->
    Matches (Class n items) bot eot (String c EmptyString)
| MBol eot : Matches Bol true eot EmptyString
| MEol bot : Matches Eol bot true EmptyString
| MCat a b bot eot w1 w2 :
    Matches a bot (eot && isEmpty w2) w1 ->
    Matches b (bot && isEmpty w1) eot w2 ->
    Matches (Cat a b) bot eot (w1 ++ w2)
| MAltL a b bot eot w : Matches a bot eot w -> Matches (Alt a b) bot eot w
| MAltR a b bot eot w : Matches b bot eot w -> Matches (Alt a b) bot eot w
| MStar0 a bot eot : Matches (Star a) bot eot EmptyString
| MStarS a bot eot w1 w2 :
    Matches a bot (eot && isEmpty w2) w1 ->
    Matches (Star a) (bot && isEmpty w1) eot w2 ->
    Matches (Star a) bot eot (w1 ++ w2).

End Regexp.

Import Regexp.

(** ** Package state

    The package keeps its three compiled patterns in package-level
    variables. A metadata map is a reference into a heap of maps. The store
    gathers both, and package code runs in a state monad over it. *)

(** A map value: [None] is the nil map, [Some l] points into the heap. *)
Definition mapref : Type := option positive.

(** Dynamically typed values held in a [map[string]interface{}]. *)
Inductive any : Type :=
| AnyNil
| AnyBool (b : bool)
| AnyInt (z : Z)
| AnyString (s : string)
| AnyMap (ref : mapref).

Record Vars : Type := mkVars {
  userRegexp : regexp;
  hostRegexp : regexp;
  userDotRegexp : regexp
}.

Record Store : Type := mkStore {
  pkg : Vars;
  heap : gmap positive (gmap string any)
}.

Definition St (A : Type) : Type := Store -> A * Store.

Definition ret {A : Type} (a : A) : St A := fun st => (a, st).

Definition bind {A B : Type} (m : St A) (k : A -> St B) : St B :=
  fun st => let (a, st') := m st in k a st'.

(** Reading a package-level variable. *)
Definition readVar {A : Type} (f : Vars -> A) : St A :=
  fun st => (f (pkg st), st).

Definition evalSt {A : Type} (m : St A) (st : Store) : A := fst (m st).
Definition execSt {A : Type} (m : St A) (st : Store) : Store := snd (m st).

Declare Scope st_scope.
Delimit Scope st_scope with st.
Notation "x <~ m ;; k" := (bind m (fun x => k))
  (at level 200, m at level 99, k at level 200, right associativity) : st_scope.

(** ** The package [users] *)

Definition minPassLen : Z := 8.
Definition maxLocalLen : Z := 64.
Definition maxDomainLen : Z := 255.
Definition maxTLDLen : Z := 24.

Definition atSeparator : string := "@".
Definition dotSeparator : string := ".".

(** The bracket expression of [userRegexp]. *)
Definition userClass : list item :=
  [ Range "a" "z"; Range "A" "Z"; Range "0" "9";
    Chr "!"; Chr "#"; Chr "$"; Chr "%"; Chr "&"; Chr "'"; Chr "*"; Chr "+";
    Chr "/"; Chr "="; Chr "?"; Chr "^"; Chr "_"; Chr "`"; Chr "{"; Chr "|";
    Chr "}"; Chr "~"; Chr "."; Chr "-" ]%char.

(** The package-level variables as initialised by [regexp.MustCompile]:
    - userRegexp: ^[a-zA-Z0-9!#$%&'*+/=?^_`{|}~.-]+$
    - hostRegexp: ^[^\s]+\.[^\s]+$
    - userDotRegexp: (^[.]{1})|([.]{1}$)|([.]{2,}) *)
Definition pkgInit : Vars :=
  {| userRegexp :=
       Cat Bol (Cat (Plus (Class false userClass)) Eol);
     hostRegexp :=
       Cat Bol (Cat (Plus (Class true [PerlSpace]))
               (Cat (Lit ".")
               (Cat (Plus (Class true [PerlSpace])) Eol)));
     userDotRegexp :=
       Alt (Alt (Group (Cat Bol (Times 1 (Class false [Chr "."%char]))))
                (Group (Cat (Times 1 (Class false [Chr "."%char])) Eol)))
           (Group (AtLeast 2 (Class false [Chr "."%char]))) |}.

(** The store of a running program: the variables as initialised, over any
    heap of metadata maps. *)
Definition initStore (h : gmap positive (gmap string any)) : Store :=
  {| pkg := pkgInit; heap := h |}.

(** Modelled from the spec: the error kinds of the package (section 7 of the
    specification); [ErrMalformedEntity] is declared outside users.go. A
    [nil] error is [None]. *)
Inductive Error : Type :=
| ErrMalformedEntity
| ErrNotFound
| ErrConflict
| ErrInternal.

Record User : Type := mkUser {
  Email : string;
  Password : string;
  Metadata : mapref
}.

Section Users.

(** [idna.ToASCII] of golang.org/x/net/idna; [None] stands for a non-nil
    error. *)
Variable ToASCII : string -> option string.

Local Open Scope st_scope.

Definition isEmail (email : string) : St bool :=
  if String.eqb email "" then ret false else
  let es := Split email atSeparator in
  if negb (Z.of_nat (length es) =? 2) then ret false else
  let local := index es 0 in
  let host := index es 1 in
  if String.eqb local "" || (maxLocalLen <? len local) then ret false else
  let hs := Split host dotSeparator in
  if negb (Z.of_nat (length hs) =? 2) then ret false else
  let domain := index hs 0 in
  let ext := index hs 1 in
  if String.eqb domain "" || (maxDomainLen <? len domain) then ret false else
  if String.eqb ext "" || (maxTLDLen <? len ext) then ret false else
  match ToASCII local with
  | None => ret false
  | Some punyLocal =>
      match ToASCII host with
      | None => ret false
      | Some punyHost =>
          dotRe <~ readVar userDotRegexp ;;
          if MatchString dotRe punyLocal then ret false else
          userRe <~ readVar userRegexp ;;
          if negb (MatchString userRe punyLocal) then ret false else
          hostRe <~ readVar hostRegexp ;;
          if negb (MatchString hostRe punyHost) then ret false else
          ret true
      end
  end.

(** [func (u User) Validate() errors.Error]: the receiver is passed by
    value. *)
Definition Validate (u : User) : St (option Error) :=
  ok <~ isEmail (Email u) ;;
  if negb ok then ret (Some ErrMalformedEntity) else
  if len (Password u) <? minPassLen then ret (Some ErrMalformedEntity) else
  ret None.

End Users.

(** ** A concrete conversion

    The verification of [isEmail] is parametric in [idna.ToASCII]. To run
    the predicate on concrete addresses a conversion is needed; this one
    splits the input on dots, leaves ASCII labels as they are and replaces
    every other label by the ACE prefix followed by its Punycode encoding
    (RFC 3492, section 6.3), computed on 32-bit integers over the code
    points that Go's [range] decodes from the bytes. *)

Module Puny.

Definition byteZ (c : ascii) : Z := Z.of_N (N_of_ascii c).
Definition byteOf (z : Z) : ascii := ascii_of_N (Z.to_N z).

Definition RuneError : Z := 65533.

Definition inRange (lo hi b : Z) : bool := (lo <=? b) && (b <=? hi).
Definition contByte (b : Z) : bool := inRange 128 191 b.
Definition low6 (b : Z) : Z := Z.land b 63.

(** [utf8.DecodeRuneInString] on a non-empty string: the code point and
    the number of bytes it takes; an ill-formed sequence decodes to
    [RuneError] of width 1. *)
Definition decodeRune (s : string) : Z * nat :=
  match s with
  | EmptyString => (RuneError, 0%nat)
  | String c0 s1 =>
      let b0 := byteZ c0 in
      if b0 <? 128 then (b0, 1%nat) else
      match s1 with
      | EmptyString => (RuneError, 1%nat)
      | String c1 s2 =>
          let b1 := byteZ c1 in
          if inRange 194 223 b0 then
            if contByte b1
            then (Z.lor (Z.shiftl (Z.land b0 31) 6) (low6 b1), 2%nat)
            else (RuneError, 1%nat)
          else
          let lo := if b0 =? 224 then 160 else if b0 =? 240 then 144 else 128 in
          let hi := if b0 =? 237 then 159 else if b0 =? 244 then 143 else 191 in
          if negb (inRange 224 244 b0 && inRange lo hi b1) then (RuneError, 1%nat) else
          match s2 with
          | EmptyString => (RuneError, 1%nat)
          | String c2 s3 =>
              let b2 := byteZ c2 in
              if negb (contByte b2) then (RuneError, 1%nat) else
              if b0 <=? 239 then
                (Z.lor (Z.shiftl (Z.land b0 15) 12)
                       (Z.lor (Z.shiftl (low6 b1) 6) (low6 b2)), 3%nat)
              else
              match s3 with
              | EmptyString => (RuneError, 1%nat)
              | String c3 _ =>
                  let b3 := byteZ c3 in
                  if contByte b3 then
                    (Z.lor (Z.shiftl (Z.land b0 7) 18)
                       (Z.lor (Z.shiftl (low6 b1) 12)
                          (Z.lor (Z.shiftl (low6 b2) 6) (low6 b3))), 4%nat)
                  else (RuneError, 1%nat)
              end
          end
      end
  end.

(** The code points of [for _, r := range s]. *)
Fixpoint runesFrom (skip : nat) (s : string) : list Z :=
  match s with
  | EmptyString => []
  | String _ s' =>
      match skip with
      | S k => runesFrom k s'
      | O => let (r, w) := decodeRune s in r :: runesFrom (w - 1) s'
      end
  end.

Definition runes (s : string) : list Z := runesFrom 0 s.

(** [utf8.RuneCountInString]. *)
Definition RuneCountInString (s : string) : Z := Z.of_nat (length (runes s)).

Definition wrap32 (z : Z) : Z := (z + 2147483648) mod 4294967296 - 2147483648.

Definition base : Z := 36.
Definition tmin : Z := 1.
Definition tmax : Z := 26.
Definition skew : Z := 38.
Definition damp : Z := 700.
Definition initialBias : Z := 72.
Definition initialN : Z := 128.
Definition acePrefix : string := "xn--".

Definition encodeDigit (digit : Z) : ascii :=
  if digit <? 26 then byteOf (digit + 97) else byteOf (digit + (48 - 26)).

Fixpoint adaptLoop (fuel : nat) (delta k : Z) : Z * Z :=
  match fuel with
  | O => (delta, k)
  | S f =>
      if ((base - tmin) * tmax) / 2 <? delta
      then adaptLoop f (Z.quot delta (base - tmin)) (k + base)
      else (delta, k)
  end.

Definition adapt (delta numPoints : Z) (firstTime : bool) : Z :=
  let delta := if firstTime then Z.quot delta damp else Z.quot delta 2 in
  let delta := delta + Z.quot delta numPoints in
  let (delta, k) := adaptLoop 32 delta 0 in
  k + Z.quot ((base - tmin + 1) * delta) (delta + skew).

(** The digits of one delta: [for k := base; ; k += base]. *)
Fixpoint digits (fuel : nat) (bias q k : Z) (out : string) : string :=
  match fuel with
  | O => out
  | S f =>
      let t := if k <=? bias then tmin
               else if bias + tmax <=? k then tmax else k - bias in
      if q <? t then out ++ String (encodeDigit q) EmptyString
      else digits f bias (Z.quot (q - t) (base - t)) (k + base)
                  (out ++ String (encodeDigit (t + Z.rem (q - t) (base - t)))
                                 EmptyString)
  end.

Record enc : Type := mkEnc {
  delta : Z; bias : Z; handled : Z; remaining : Z; output : string
}.

(** One pass over the code points for the current [n]. *)
Fixpoint pass (b n : Z) (rs : list Z) (e : enc) : option enc :=
  match rs with
  | [] => Some e
  | r :: rs' =>
      if r <? n then
        let d := wrap32 (delta e + 1) in
        if d <? 0 then None
        else pass b n rs' (mkEnc d (bias e) (handled e) (remaining e) (output e))
      else if n <? r then pass b n rs' e
      else
        pass b n rs'
          (mkEnc 0
                 (adapt (delta e) (handled e + 1) (handled e =? b))
                 (handled e + 1)
                 (remaining e - 1)
                 (digits 32 (bias e) (delta e) base (output e)))
  end.

Definition minAbove (n : Z) (rs : list Z) : Z :=
  fold_left (fun m r => if (r <? m) && (n <=? r) then r else m) rs 2147483647.

(** [for remaining != 0]: every round handles the smallest code point not
    yet handled, so the number of rounds is at most [remaining]. *)
Fixpoint rounds (fuel : nat) (b n : Z) (rs : list Z) (e : enc) : option string :=
  if remaining e =? 0 then Some (output e) else
  match fuel with
  | O => None
  | S f =>
      let m := minAbove n rs in
      let d := wrap32 (delta e + wrap32 ((m - n) * (handled e + 1))) in
      if d <? 0 then None else
      match pass b m rs (mkEnc d (bias e) (handled e) (remaining e) (output e)) with
      | None => None
      | Some e' =>
          rounds f b (m + 1) rs
                 (mkEnc (wrap32 (delta e' + 1)) (bias e') (handled e')
                        (remaining e') (output e'))
      end
  end.

Definition isBasic (r : Z) : bool := r <? 128.

Definition encode (prefix s : string) : option string :=
  let rs := runes s in
  let basic := filter isBasic rs in
  let b := Z.of_nat (length basic) in
  let rest := (length rs - length basic)%nat in
  let out := prefix ++ string_of_list_ascii (map byteOf basic) in
  let out := if 0 <? b then out ++ "-" else out in
  rounds rest b initialN rs (mkEnc 0 initialBias b (Z.of_nat rest) out).

Definition ascii (s : string) : bool := all (fun c => byteZ c <? 128) s.

Definition toLabel (label : string) : option string :=
  if ascii label then Some label else encode acePrefix label.

Fixpoint joinLabels (ls : list string) : option string :=
  match ls with
  | [] => Some EmptyString
  | [l] => toLabel l
  | l :: ls' =>
      match toLabel l, joinLabels ls' with
      | Some a, Some r => Some (a ++ "." ++ r)
      | _, _ => None
      end
  end.

Definition ToASCII (s : string) : option string := joinLabels (Split s ".").

End Puny.

(** ** Vocabulary of the properties *)

(** Membership in the class of [userRegexp], in the negated class of
    [hostRegexp], and the byte [userDotRegexp] looks for. *)
Definition userChar (c : ascii) : bool := classMatch false userClass c.
Definition nonSpace (c : ascii) : bool := classMatch true [PerlSpace] c.
Definition dot : ascii := "."%char.
Definition at_ : ascii := "@"%char.

(** A string starts with a dot, ends with a dot or has two dots in a row. *)
Definition dotBad (s : string) : bool :=
  startsWith dot s || endsWith dot s || hasDouble dot s.

(** A conversion returns [s] unchanged; a conversion that, when it succeeds
    on [s], returns it unchanged. *)
Definition fixes (conv : string -> option string) (s : string) : Prop :=
  conv s = Some s.

Definition keeps (conv : string -> option string) (s : string) : Prop :=
  forall p, conv s = Some p -> p = s.

(** Two calls in a row, the second in the store the first one left. *)
Definition twice {A : Type} (m : St A) : St (A * A) :=
  (a <~ m ;; b <~ m ;; ret (a, b))%st.

(** The checks of [isEmail] that follow the two splits, as one boolean. *)
Definition checksAfterSplit (ToASCII : string -> option string) (v : Vars)
    (local host domain ext : string) : bool :=
  negb (isEmpty local) && (len local <=? maxLocalLen)
  && negb (isEmpty domain) && (len domain <=? maxDomainLen)
  && negb (isEmpty ext) && (len ext <=? maxTLDLen)
  && match ToASCII local, ToASCII host with
     | Some punyLocal, Some punyHost =>
         negb (MatchString (userDotRegexp v) punyLocal)
         && MatchString (userRegexp v) punyLocal
         && MatchString (hostRegexp v) punyHost
     | _, _ => false
     end.

(** Sample accounts, heaps and local parts for closed instances. *)
Definition sampleUser (password : string) (metadata : mapref) : User :=
  {| Email := "user@example.com"; Password := password; Metadata := metadata |}.

Definition sampleHeap : gmap positive (gmap string any) :=
  {[ 1%positive := {[ "role" := AnyString "admin" ]} ]}.

(** [strings.Repeat]. *)
Fixpoint Repeat (s : string) (n : nat) : string :=
  match n with
  | O => EmptyString
  | S k => s ++ Repeat s k
  end.

(** 64 and 65 letters; 33 two-byte letters (66 bytes); 62 letters followed
    by one two-byte letter (64 bytes). *)
Definition local64 : string := Repeat "a" 64.
Definition local65 : string := Repeat "a" 65.
Definition wideLocal : string := Repeat "é" 33.
Definition accentedLocal : string := Repeat "a" 62 ++ "é".

(** Samples at the domain and extension limits, a password of four
    two-byte letters, and a conversion that fails on every input. *)
Definition domain255 : string := Repeat "d" 255.
Definition domain256 : string := Repeat "d" 256.
Definition ext24 : string := Repeat "e" 24.
Definition ext25 : string := Repeat "e" 25.
Definition widePassword : string := Repeat "é" 4.
Definition failingConversion : string -> option string := fun _ => None.

(** * Properties *)

(** ** [strings.Split] on examples *)

Example Split_two_parts : Split "user@example.com" "@" = ["user"; "example.com"].
Proof. reflexivity. Qed.

Example Split_no_separator : Split "abc" "@" = ["abc"].
Proof. reflexivity. Qed.

Example Split_empty : Split "" "@" = [""].
Proof. reflexivity. Qed.

Example Split_trailing : Split "a@" "@" = ["a"; ""].
Proof. reflexivity. Qed.

Example Split_three_parts : Split "sub.example.io" "." = ["sub"; "example"; "io"].
Proof. reflexivity. Qed.

(** ** Byte strings *)

Section StringFacts.

Lemma append_nil_r (s : string) : s ++ "" = s.
Proof. induction s as [|c s IH]; simpl; [reflexivity | now rewrite IH]. Qed.

Lemma append_assoc (a b c : string) : (a ++ b) ++ c = a ++ (b ++ c).
Proof. induction a as [|x a IH]; simpl; [reflexivity | now rewrite IH]. Qed.

Lemma append_eq_nil (a b : string) : a ++ b = "" -> a = "" /\ b = "".
Proof. destruct a; simpl; [auto | discriminate]. Qed.

Lemma length_append (a b : string) :
  String.length (a ++ b) = (String.length a + String.length b)%nat.
Proof. induction a as [|x a IH]; simpl; [reflexivity | now rewrite IH]. Qed.

Lemma isEmpty_true (s : string) : isEmpty s = true <-> s = "".
Proof. destruct s; simpl; split; intros; congruence. Qed.

Lemma isEmpty_eqb (s : string) : String.eqb s "" = isEmpty s.
Proof. destruct s; reflexivity. Qed.

Lemma isEmpty_append (a b : string) : isEmpty (a ++ b) = isEmpty a && isEmpty b.
Proof. destruct a; reflexivity. Qed.

Lemma all_append (p : ascii -> bool) (a b : string) :
  all p (a ++ b) = all p a && all p b.
Proof.
  induction a as [|x a IH]; simpl; [reflexivity|].
  now rewrite IH, andb_assoc.
Qed.

Lemma count_append (c : ascii) (a b : string) :
  count c (a ++ b) = (count c a + count c b)%nat.
Proof. induction a as [|x a IH]; simpl; [reflexivity | rewrite IH; lia]. Qed.

Lemma len_nonneg (s : string) : 0 <= len s.
Proof. unfold len; lia. Qed.

End StringFacts.

(** ** Correctness of the matcher *)

Section MatcherCorrect.

Lemma Matches_Void bot eot w : ~ Matches Void bot eot w.
Proof. intros H; inversion H. Qed.

Lemma Matches_Eps bot eot w : Matches Eps bot eot w <-> w = "".
Proof. split; [intros H; now inversion H | intros ->; constructor]. Qed.

Lemma Matches_Class n items bot eot w :
  Matches (Class n items) bot eot w <->
  exists c, w = String c "" /\ classMatch n items c = true.
Proof.
  split.
  - intros H; inversion H; subst; eauto.
  - intros (c & -> & Hc); now constructor.
Qed.

Lemma Matches_Bol bot eot w : Matches Bol bot eot w <-> bot = true /\ w = "".
Proof.
  split; [intros H; now inversion H | intros [-> ->]; constructor].
Qed.

Lemma Matches_Eol bot eot w : Matches Eol bot eot w <-> eot = true /\ w = "".
Proof.
  split; [intros H; now inversion H | intros [-> ->]; constructor].
Qed.

Lemma Matches_Cat a b bot eot w :
  Matches (Cat a b) bot eot w <->
  exists w1 w2, w = w1 ++ w2
    /\ Matches a bot (eot && isEmpty w2) w1
    /\ Matches b (bot && isEmpty w1) eot w2.
Proof.
  split.
  - intros H; inversion H; subst; eauto.
  - intros (w1 & w2 & -> & H1 & H2); now constructor.
Qed.

Lemma Matches_Alt a b bot eot w :
  Matches (Alt a b) bot eot w <-> Matches a bot eot w \/ Matches b bot eot w.
Proof.
  split.
  - intros H; inversion H; subst; auto.
  - intros [H | H]; [now apply MAltL | now apply MAltR].
Qed.

Lemma Matches_cat a b bot eot w :
  Matches (cat a b) bot eot w <-> Matches (Cat a b) bot eot w.
Proof.
  destruct a; simpl; try reflexivity.
  - split; [intros H; now apply Matches_Void in H|].
    intros H; apply Matches_Cat in H as (w1 & w2 & _ & H & _).
    now apply Matches_Void in H.
  - rewrite Matches_Cat; split.
    + intros H; exists "", w; simpl; rewrite andb_true_r.
      repeat split; [constructor | exact H].
    + intros (w1 & w2 & -> & H1 & H2).
      apply Matches_Eps in H1; subst w1; simpl in *.
      now rewrite andb_true_r in H2.
Qed.

Lemma Matches_alt a b bot eot w :
  Matches (alt a b) bot eot w <-> Matches (Alt a b) bot eot w.
Proof.
  rewrite Matches_Alt.
  assert (Hv : forall x, Matches x bot eot w \/ Matches Void bot eot w
                         <-> Matches x bot eot w).
  { intros x; split; [intros [H | H]; [exact H | now apply Matches_Void in H] | auto]. }
  assert (Hv' : forall x, Matches Void bot eot w \/ Matches x bot eot w
                          <-> Matches x bot eot w).
  { intros x; split; [intros [H | H]; [now apply Matches_Void in H | exact H] | auto]. }
  destruct a; simpl; try (symmetry; apply Hv');
    destruct b; simpl; try (symmetry; apply Hv); apply Matches_Alt.
Qed.

Lemma nullable_Matches r : forall bot eot,
  nullable bot eot r = true <-> Matches r bot eot "".
Proof.
  induction r as [| | n items | | | a IHa b IHb | a IHa b IHb | a IHa];
    intros bot eot; simpl.
  - split; [discriminate | intros H; now apply Matches_Void in H].
  - split; [constructor | reflexivity].
  - split; [discriminate | intros H; inversion H].
  - rewrite Matches_Bol; intuition.
  - rewrite Matches_Eol; intuition.
  - rewrite andb_true_iff, IHa, IHb, Matches_Cat; split.
    + intros [Ha Hb]; exists "", ""; simpl; rewrite !andb_true_r; auto.
    + intros (w1 & w2 & Hw & Ha & Hb).
      symmetry in Hw; apply append_eq_nil in Hw as [-> ->]; simpl in *.
      now rewrite !andb_true_r in *.
  - now rewrite orb_true_iff, IHa, IHb, Matches_Alt.
  - split; [constructor | reflexivity].
Qed.

Lemma deriv_sound r : forall bot eot c w,
  Matches (deriv bot c r) false eot w -> Matches r bot eot (String c w).
Proof.
  induction r as [| | n items | | | a IHa b IHb | a IHa b IHb | a IHa];
    intros bot eot c w H; simpl in H;
    try (now apply Matches_Void in H).
  - destruct (classMatch n items c) eqn:Hc; [|now apply Matches_Void in H].
    apply Matches_Eps in H; subst w; now constructor.
  - apply Matches_alt, Matches_Alt in H as [H | H].
    + apply Matches_cat, Matches_Cat in H as (w1 & w2 & -> & H1 & H2).
      change (String c (w1 ++ w2)) with (String c w1 ++ w2).
      constructor; [now apply IHa|].
      simpl in *; now rewrite andb_false_r.
    + destruct (nullable bot false a) eqn:Hn; [|now apply Matches_Void in H].
      apply nullable_Matches in Hn.
      change (String c w) with ("" ++ String c w).
      constructor; simpl.
      * now rewrite andb_false_r.
      * rewrite andb_true_r; now apply IHb.
  - apply Matches_alt, Matches_Alt in H as [H | H];
      [apply MAltL, IHa, H | apply MAltR, IHb, H].
  - apply Matches_cat, Matches_Cat in H as (w1 & w2 & -> & H1 & H2).
    change (String c (w1 ++ w2)) with (String c w1 ++ w2).
    constructor; [now apply IHa|].
    simpl in *; now rewrite andb_false_r.
Qed.

Lemma deriv_complete r bot eot w0 :
  Matches r bot eot w0 ->
  forall c w, w0 = String c w -> Matches (deriv bot c r) false eot w.
Proof.
  induction 1 as [bot eot | n items bot eot x Hx | eot | bot
                 | a b bot eot w1 w2 H1 IH1 H2 IH2
                 | a b bot eot w0 H IH | a b bot eot w0 H IH
                 | a bot eot
                 | a bot eot w1 w2 H1 IH1 H2 IH2];
    intros c w E; simpl; try discriminate.
  - injection E as -> <-; rewrite Hx; constructor.
  - apply Matches_alt, Matches_Alt.
    destruct w1 as [|x w1]; simpl in E.
    + right; subst w2; simpl in *.
      rewrite andb_false_r in H1; rewrite andb_true_r in H2, IH2.
      apply nullable_Matches in H1; rewrite H1; now apply IH2.
    + left; injection E as -> <-.
      apply Matches_cat, Matches_Cat; exists w1, w2; simpl in *.
      rewrite andb_false_r in H2; repeat split; [now apply IH1 | exact H2].
  - apply Matches_alt, Matches_Alt; left; now apply IH.
  - apply Matches_alt, Matches_Alt; right; now apply IH.
  - destruct w1 as [|x w1]; simpl in E.
    + subst w2; simpl in *; rewrite andb_true_r in IH2; now apply IH2.
    + injection E as -> <-.
      apply Matches_cat, Matches_Cat; exists w1, w2; simpl in *.
      rewrite andb_false_r in H2; repeat split; [now apply IH1 | exact H2].
Qed.

Lemma matchAll_Matches s : forall r bot,
  matchAll r bot s = true <-> Matches r bot true s.
Proof.
  induction s as [|c s IH]; intros r bot; simpl.
  - apply nullable_Matches.
  - rewrite IH; split; [apply deriv_sound|].
    intros H; now apply (deriv_complete _ _ _ _ H).
Qed.

Lemma Matches_any_star bot eot w : Matches (Star AnyByte) bot eot w.
Proof.
  revert bot; induction w as [|c w IH]; intros bot; [constructor|].
  change (String c w) with (String c "" ++ w).
  constructor; [now constructor | apply IH].
Qed.

(** [MatchString] holds exactly when some piece of the subject matches. *)
Lemma MatchString_spec re s :
  MatchString re s = true <->
  exists pre w post,
    s = pre ++ w ++ post /\ Matches re (isEmpty pre) (isEmpty post) w.
Proof.
  unfold MatchString; rewrite matchAll_Matches, Matches_Cat; split.
  - intros (pre & rest & -> & _ & H).
    apply Matches_Cat in H as (w & post & -> & H & _).
    exists pre, w, post; split; [reflexivity | exact H].
  - intros (pre & w & post & -> & H).
    exists pre, (w ++ post); split; [reflexivity|].
    split; [apply Matches_any_star|].
    apply Matches_Cat; exists w, post; split; [reflexivity|].
    split; [exact H | apply Matches_any_star].
Qed.

End MatcherCorrect.

(** ** What the three patterns accept *)

Section Patterns.

Example userRegexp_examples :
  map (MatchString (userRegexp pkgInit)) ["a.b+c"; "user"; ""; "a b"; "a@b"]
  = [true; true; false; false; false].
Proof. vm_compute; reflexivity. Qed.

Example hostRegexp_examples :
  map (MatchString (hostRegexp pkgInit))
      ["example.com"; "a..b"; "bcom"; ".com"; "b."; "b .com"]
  = [true; true; false; false; false; false].
Proof. vm_compute; reflexivity. Qed.

Example userDotRegexp_examples :
  map (MatchString (userDotRegexp pkgInit)) [".a"; "a."; "a..b"; "."; "a.b"; ""]
  = [true; true; true; true; false; false].
Proof. vm_compute; reflexivity. Qed.

Lemma dotClass_iff c : classMatch false [Chr dot] c = true <-> c = dot.
Proof.
  unfold classMatch; cbn [existsb itemMatch xorb]; rewrite orb_false_r.
  rewrite Ascii.eqb_eq; split; congruence.
Qed.

Lemma Matches_Star_Class n items w : forall bot eot,
  Matches (Star (Class n items)) bot eot w <-> all (classMatch n items) w = true.
Proof.
  intros bot eot; split.
  - intros H; remember (Star (Class n items)) as r eqn:Er.
    induction H; try discriminate; [reflexivity|].
    injection Er as ->.
    apply Matches_Class in H as (c & -> & Hc); simpl.
    rewrite Hc; simpl; now apply IHMatches2.
  - revert bot; induction w as [|c w IH]; intros bot Hw; [constructor|].
    simpl in Hw; apply andb_true_iff in Hw as [Hc Hw].
    change (String c w) with (String c "" ++ w).
    constructor; [now constructor | now apply IH].
Qed.

Lemma Matches_Plus_Class n items w bot eot :
  Matches (Plus (Class n items)) bot eot w <->
  isEmpty w = false /\ all (classMatch n items) w = true.
Proof.
  unfold Plus; rewrite Matches_Cat; split.
  - intros (w1 & w2 & -> & H1 & H2).
    apply Matches_Class in H1 as (c & -> & Hc).
    apply Matches_Star_Class in H2; simpl; now rewrite Hc, H2.
  - destruct w as [|c w]; [intros [? _]; discriminate|].
    simpl; intros [_ Hw]; apply andb_true_iff in Hw as [Hc Hw].
    exists (String c ""), w; split; [reflexivity|].
    split; [now constructor | now apply Matches_Star_Class].
Qed.

(** userRegexp accepts the non-empty strings over its class. *)
Lemma userRegexp_spec s :
  MatchString (userRegexp pkgInit) s = true <->
  isEmpty s = false /\ all userChar s = true.
Proof.
  rewrite MatchString_spec; simpl; split.
  - intros (pre & w & post & -> & H).
    apply Matches_Cat in H as (w1 & w2 & -> & H1 & H2).
    apply Matches_Bol in H1 as [Hpre ->].
    apply Matches_Cat in H2 as (w3 & w4 & -> & H3 & H4).
    apply Matches_Eol in H4 as [Hpost ->].
    apply Matches_Plus_Class in H3.
    apply isEmpty_true in Hpre, Hpost; subst pre post; simpl.
    now rewrite !append_nil_r.
  - intros Hs; exists "", s, ""; rewrite append_nil_r; split; [reflexivity|].
    apply Matches_Cat; exists "", s; simpl; split; [reflexivity|].
    split; [constructor|].
    apply Matches_Cat; exists s, ""; rewrite append_nil_r; split; [reflexivity|].
    split; [now apply Matches_Plus_Class | constructor].
Qed.

(** hostRegexp accepts the strings free of white space that have a dot with
    something on either side. *)
Lemma hostRegexp_spec s :
  MatchString (hostRegexp pkgInit) s = true <->
  exists a b, s = a ++ String dot b
    /\ isEmpty a = false /\ isEmpty b = false
    /\ all nonSpace a = true /\ all nonSpace b = true.
Proof.
  rewrite MatchString_spec; simpl; split.
  - intros (pre & w & post & -> & H).
    apply Matches_Cat in H as (w1 & w2 & -> & H1 & H2).
    apply Matches_Bol in H1 as [Hpre ->].
    apply Matches_Cat in H2 as (a & w3 & -> & Ha & H3).
    apply Matches_Cat in H3 as (d & w4 & -> & Hd & H4).
    apply Matches_Cat in H4 as (b & w5 & -> & Hb & H5).
    apply Matches_Eol in H5 as [Hpost ->].
    apply Matches_Plus_Class in Ha, Hb.
    apply Matches_Class in Hd as (c & -> & Hc).
    apply dotClass_iff in Hc; subst c.
    apply isEmpty_true in Hpre, Hpost; subst pre post; simpl.
    exists a, b; rewrite !append_nil_r; tauto.
  - intros (a & b & -> & Ha & Hb & Ha' & Hb').
    exists "", (a ++ String dot b), ""; rewrite append_nil_r.
    split; [reflexivity|].
    apply Matches_Cat; exists "", (a ++ String dot b); simpl.
    split; [reflexivity|]; split; [constructor|].
    apply Matches_Cat; exists a, (String dot b); split; [reflexivity|].
    split; [now apply Matches_Plus_Class|].
    apply Matches_Cat; exists (String dot ""), b; split; [reflexivity|].
    split; [constructor; now apply dotClass_iff|].
    apply Matches_Cat; exists b, ""; rewrite append_nil_r; split; [reflexivity|].
    split; [now apply Matches_Plus_Class | constructor].
Qed.

Lemma startsWith_iff c s : startsWith c s = true <-> exists r, s = String c r.
Proof.
  destruct s as [|a s]; simpl.
  - split; [discriminate | intros [r Hr]; discriminate].
  - rewrite Ascii.eqb_eq; split; [intros ->; eauto | intros [r Hr]; congruence].
Qed.

Lemma endsWith_iff c s : endsWith c s = true <-> exists p, s = p ++ String c "".
Proof.
  induction s as [|a s IH].
  - simpl; split; [discriminate | intros [[|x p] Hp]; discriminate].
  - destruct s as [|b s].
    + simpl; rewrite Ascii.eqb_eq; split.
      * intros ->; now exists "".
      * intros [[|x p] Hp]; simpl in Hp; [congruence|].
        injection Hp as _ Hp; destruct p; discriminate.
    + change (endsWith c (String a (String b s))) with (endsWith c (String b s)).
      rewrite IH; split.
      * intros [p ->]; now exists (String a p).
      * intros [[|x p] Hp]; simpl in Hp; [discriminate|].
        injection Hp as _ Hp; eauto.
Qed.

Lemma hasDouble_iff c s :
  hasDouble c s = true <-> exists p r, s = p ++ String c (String c r).
Proof.
  induction s as [|a s IH].
  - simpl; split; [discriminate | intros ([|x p] & r & Hp); discriminate].
  - simpl; rewrite orb_true_iff, IH, andb_true_iff; split.
    + intros [[Ha Hb] | (p & r & ->)].
      * destruct s as [|b s]; [discriminate|].
        apply Ascii.eqb_eq in Ha, Hb; subst; now exists "", s.
      * now exists (String a p), r.
    + intros ([|x p] & r & Hp); simpl in Hp.
      * injection Hp as -> ->; left; now rewrite !Ascii.eqb_refl.
      * injection Hp as _ ->; right; eauto.
Qed.

(** userDotRegexp finds a leading dot, a trailing dot or two dots in a row. *)
Lemma userDotRegexp_spec s :
  MatchString (userDotRegexp pkgInit) s = true <->
  startsWith dot s = true \/ endsWith dot s = true \/ hasDouble dot s = true.
Proof.
  rewrite MatchString_spec, startsWith_iff, endsWith_iff, hasDouble_iff.
  simpl; unfold Group, AtLeast; simpl; split.
  - intros (pre & w & post & -> & H).
    apply Matches_Alt in H as [H | H]; [apply Matches_Alt in H as [H | H]|].
    + apply Matches_Cat in H as (w1 & w2 & -> & H1 & H2).
      apply Matches_Bol in H1 as [Hpre ->].
      apply Matches_Cat in H2 as (d & w3 & -> & Hd & H3).
      apply Matches_Class in Hd as (c & -> & Hc).
      apply dotClass_iff in Hc; subst c.
      apply isEmpty_true in Hpre; subst pre; simpl; eauto.
    + apply Matches_Cat in H as (w1 & w2 & -> & H1 & H2).
      apply Matches_Eol in H2 as [Hpost ->].
      apply Matches_Cat in H1 as (d & w3 & -> & Hd & H3).
      apply Matches_Eps in H3; subst w3.
      apply Matches_Class in Hd as (c & -> & Hc).
      apply dotClass_iff in Hc; subst c.
      apply isEmpty_true in Hpost; subst post; simpl.
      right; left; exists pre; reflexivity.
    + apply Matches_Cat in H as (w1 & w2 & -> & H1 & _).
      apply Matches_Cat in H1 as (d1 & w3 & -> & Hd1 & H3).
      apply Matches_Cat in H3 as (d2 & w4 & -> & Hd2 & H4).
      apply Matches_Eps in H4; subst w4.
      apply Matches_Class in Hd1 as (c1 & -> & Hc1).
      apply Matches_Class in Hd2 as (c2 & -> & Hc2).
      apply dotClass_iff in Hc1, Hc2; subst c1 c2; simpl.
      right; right; exists pre, (w2 ++ post); reflexivity.
  - intros [[r ->] | [[p ->] | (p & r & ->)]].
    + exists "", (String dot ""), r; split; [reflexivity|].
      apply MAltL, MAltL, Matches_Cat; exists "", (String dot ""); simpl.
      split; [reflexivity|]; split; [constructor|].
      apply Matches_Cat; exists (String dot ""), ""; split; [reflexivity|].
      split; [constructor; now apply dotClass_iff | constructor].
    + exists p, (String dot ""), ""; split; [reflexivity|].
      apply MAltL, MAltR, Matches_Cat; exists (String dot ""), ""; simpl.
      split; [reflexivity|]; split; [|constructor].
      apply Matches_Cat; exists (String dot ""), ""; split; [reflexivity|].
      split; [constructor; now apply dotClass_iff | constructor].
    + exists p, (String dot (String dot "")), r; split; [reflexivity|].
      apply MAltR, Matches_Cat; exists (String dot (String dot "")), "".
      split; [reflexivity|]; split; [|constructor].
      apply Matches_Cat; exists (String dot ""), (String dot "").
      split; [reflexivity|]; split; [constructor; now apply dotClass_iff|].
      apply Matches_Cat; exists (String dot ""), ""; split; [reflexivity|].
      split; [constructor; now apply dotClass_iff | constructor].
Qed.

End Patterns.

(** ** [strings.Split] on a one-byte separator *)

Section SplitFacts.

Variable c : ascii.

Let sep : string := String c "".

Lemma splitFrom_step a s :
  splitFrom sep 0 (String a s) =
  if Ascii.eqb a c then "" :: splitFrom sep 0 s
  else pushHead a (splitFrom sep 0 s).
Proof.
  unfold sep; cbn [splitFrom HasPrefix String.prefix String.length Nat.sub].
  destruct (ascii_dec c a) as [->|Hne].
  - rewrite Ascii.eqb_refl; now destruct s.
  - destruct (Ascii.eqb_spec a c) as [->|_]; [congruence | reflexivity].
Qed.

Lemma Split_length s : length (Split s sep) = S (count c s).
Proof.
  unfold Split; induction s as [|a s IH]; [reflexivity|].
  rewrite splitFrom_step; cbn [count].
  destruct (Ascii.eqb a c); cbn [length]; [now rewrite IH|].
  destruct (splitFrom sep 0 s); [discriminate | exact IH].
Qed.

Lemma Split_none s : count c s = O -> Split s sep = [s].
Proof.
  unfold Split; induction s as [|a s IH]; [reflexivity|].
  rewrite splitFrom_step; cbn [count].
  destruct (Ascii.eqb a c); [discriminate|].
  intros H; now rewrite IH.
Qed.

Lemma Split_at l r : count c l = O -> Split (l ++ String c r) sep = l :: Split r sep.
Proof.
  unfold Split; induction l as [|a l IH]; simpl String.append.
  - intros _; rewrite splitFrom_step; now rewrite Ascii.eqb_refl.
  - rewrite splitFrom_step; cbn [count].
    destruct (Ascii.eqb a c); [discriminate|].
    intros H; now rewrite IH.
Qed.

Lemma Split_one_inv s b : Split s sep = [b] -> s = b /\ count c s = O.
Proof.
  intros H.
  assert (Hc : count c s = O).
  { pose proof (Split_length s) as Hl; rewrite H in Hl; simpl in Hl; lia. }
  rewrite (Split_none s Hc) in H; split; congruence.
Qed.

Lemma Split_two_inv s : forall a b,
  Split s sep = [a; b] ->
  s = a ++ String c b /\ count c a = O /\ count c b = O.
Proof.
  induction s as [|x s IH]; intros a b H; [discriminate|].
  unfold Split in H; rewrite splitFrom_step in H.
  destruct (Ascii.eqb_spec x c) as [->|Hne].
  - injection H as <- H.
    apply Split_one_inv in H as [-> Hc]; auto.
  - destruct (splitFrom sep 0 s) as [|a' rest] eqn:Es; [discriminate|].
    injection H as <- ->.
    destruct (IH a' b Es) as (-> & Ha & Hb).
    repeat split; auto.
    cbn [count]; destruct (Ascii.eqb_spec x c); [congruence | exact Ha].
Qed.

Lemma Split_two s : (length (Split s sep) = 2)%nat <-> count c s = 1%nat.
Proof. rewrite Split_length; lia. Qed.

End SplitFacts.

(** ** The predicate, step by step *)

Section IsEmailFacts.

Variable ToASCII : string -> option string.

(** [isEmail] reads the store and hands it back as it was. *)
Lemma isEmail_store email st :
  isEmail ToASCII email st = (evalSt (isEmail ToASCII email) st, st).
Proof.
  unfold evalSt, isEmail, bind, readVar, ret.
  repeat match goal with
         | |- context [if ?b then _ else _] => destruct b
         | |- context [match ToASCII ?x with _ => _ end] => destruct (ToASCII x)
         end; reflexivity.
Qed.

Lemma isEmail_split email local host domain ext st :
  Split email atSeparator = [local; host] ->
  Split host dotSeparator = [domain; ext] ->
  evalSt (isEmail ToASCII email) st
  = checksAfterSplit ToASCII (pkg st) local host domain ext.
Proof.
  intros Hes Hhs; unfold evalSt, isEmail, checksAfterSplit.
  destruct email as [|x email]; [discriminate|].
  cbn [String.eqb]; rewrite Hes; cbn [length index nth].
  rewrite Hhs; cbn [length index nth].
  change (Z.of_nat 2 =? 2) with true; cbn [negb].
  rewrite !isEmpty_eqb.
  rewrite !(Z.leb_antisym _ (len _)).
  destruct (isEmpty local), (maxLocalLen <? len local),
    (isEmpty domain), (maxDomainLen <? len domain),
    (isEmpty ext), (maxTLDLen <? len ext); try reflexivity.
  cbn [negb andb orb].
  destruct (ToASCII local) as [punyLocal|]; [|reflexivity].
  destruct (ToASCII host) as [punyHost|]; [|reflexivity].
  unfold bind, readVar, ret; cbv beta.
  destruct (MatchString (userDotRegexp (pkg st)) punyLocal); [reflexivity|].
  cbv beta iota.
  destruct (MatchString (userRegexp (pkg st)) punyLocal); [|reflexivity].
  cbn [negb]; cbv beta iota.
  destruct (MatchString (hostRegexp (pkg st)) punyHost); reflexivity.
Qed.

Lemma isEmail_not_two_parts email st :
  length (Split email atSeparator) <> 2%nat ->
  evalSt (isEmail ToASCII email) st = false.
Proof.
  intros H; unfold evalSt, isEmail.
  destruct (String.eqb email ""); [reflexivity|].
  destruct (Z.eqb_spec (Z.of_nat (length (Split email atSeparator))) 2) as [E|_];
    [lia | reflexivity].
Qed.

Lemma isEmail_host_not_two_parts email local host st :
  Split email atSeparator = [local; host] ->
  length (Split host dotSeparator) <> 2%nat ->
  evalSt (isEmail ToASCII email) st = false.
Proof.
  intros Hes H; unfold evalSt, isEmail.
  destruct (String.eqb email ""); [reflexivity|].
  rewrite Hes; cbn [length index nth].
  change (Z.of_nat 2 =? 2) with true; cbn [negb].
  destruct (_ || _); [reflexivity|].
  destruct (Z.eqb_spec (Z.of_nat (length (Split host dotSeparator))) 2) as [E|_];
    [lia | reflexivity].
Qed.

End IsEmailFacts.

(** ** [Validate] *)

Section ValidateFacts.

Variable ToASCII : string -> option string.

Lemma isEmail_reads_pkg email st1 st2 :
  pkg st1 = pkg st2 ->
  evalSt (isEmail ToASCII email) st1 = evalSt (isEmail ToASCII email) st2.
Proof.
  destruct st1 as [v h1], st2 as [v' h2]; cbn [pkg]; intros <-.
  unfold evalSt, isEmail, bind, readVar, ret.
  repeat first
    [ progress cbv beta
    | progress cbn [pkg]
    | match goal with
      | |- context [if ?b then _ else _] => destruct b
      | |- context [match ToASCII ?x with _ => _ end] => destruct (ToASCII x)
      end ]; reflexivity.
Qed.

Lemma Validate_run u st :
  Validate ToASCII u st =
  (if evalSt (isEmail ToASCII (Email u)) st
   then if len (Password u) <? minPassLen then Some ErrMalformedEntity else None
   else Some ErrMalformedEntity, st).
Proof.
  unfold Validate, bind; rewrite isEmail_store.
  destruct (evalSt (isEmail ToASCII (Email u)) st); cbn [negb]; [|reflexivity].
  destruct (len (Password u) <? minPassLen); reflexivity.
Qed.

End ValidateFacts.

(** C1. [Validate] returns [ErrMalformedEntity] exactly when [isEmail]
    rejects the user's Email or the Password is shorter than 8 bytes, and
    returns no error otherwise. In particular, when the Email is accepted, a
    Password of length 7 gives [ErrMalformedEntity] and a Password of length 8
    gives no error. *)
Theorem Validate_malformed_iff (ToASCII : string -> option string)
    (u : User) (st : Store) :
  (evalSt (Validate ToASCII u) st = Some ErrMalformedEntity <->
     evalSt (isEmail ToASCII (Email u)) st = false
     \/ len (Password u) < minPassLen)
  /\ (~ (evalSt (isEmail ToASCII (Email u)) st = false
         \/ len (Password u) < minPassLen) ->
      evalSt (Validate ToASCII u) st = None)
  /\ (evalSt (isEmail ToASCII (Email u)) st = true ->
      (len (Password u) = 7 ->
       evalSt (Validate ToASCII u) st = Some ErrMalformedEntity)
      /\ (len (Password u) = 8 -> evalSt (Validate ToASCII u) st = None)).
Proof.
  assert (Hrun : evalSt (Validate ToASCII u) st =
                 if evalSt (isEmail ToASCII (Email u)) st
                 then if len (Password u) <? minPassLen
                      then Some ErrMalformedEntity else None
                 else Some ErrMalformedEntity).
  { unfold evalSt at 1; now rewrite Validate_run. }
  rewrite Hrun; unfold minPassLen.
  destruct (evalSt (isEmail ToASCII (Email u)) st);
    destruct (Z.ltb_spec (len (Password u)) 8) as [Hlt | Hge];
    intuition (congruence || lia).
Qed.

Lemma Validate_malformed_iff_witness :
  evalSt (Validate Puny.ToASCII (sampleUser "1234567" None)) (initStore ∅)
    = Some ErrMalformedEntity
  /\ evalSt (Validate Puny.ToASCII (sampleUser "12345678" None)) (initStore ∅)
    = None.
Proof.
  split.
  - apply (proj2 (proj2 (Validate_malformed_iff Puny.ToASCII
                           (sampleUser "1234567" None) (initStore ∅))));
      vm_compute; reflexivity.
  - apply (proj2 (proj2 (Validate_malformed_iff Puny.ToASCII
                           (sampleUser "12345678" None) (initStore ∅))));
      vm_compute; reflexivity.
Defined.

(** C7. [isEmail] and [Validate] are deterministic and keep no state: two
    calls in a row on the same argument return the same value, the one a
    single call returns, and leave the store as it was. ([idna.ToASCII] is
    taken to be a function of its argument.) *)
Theorem calls_repeatable (ToASCII : string -> option string)
    (email : string) (u : User) (st : Store) :
  twice (isEmail ToASCII email) st
    = ((evalSt (isEmail ToASCII email) st, evalSt (isEmail ToASCII email) st), st)
  /\ twice (Validate ToASCII u) st
    = ((evalSt (Validate ToASCII u) st, evalSt (Validate ToASCII u) st), st).
Proof.
  unfold twice, bind, ret; split.
  - now rewrite !isEmail_store.
  - unfold evalSt; now rewrite !Validate_run.
Qed.

(** C8. [Validate] has no effect: the store it returns is the store it was
    given, so the package variables and every metadata map, the one the
    user's Metadata field refers to included, are as before. The receiver is
    passed by value, so the caller's Email, Password and Metadata fields are
    out of reach of the call. *)
Theorem Validate_no_effect (ToASCII : string -> option string)
    (u : User) (st : Store) :
  execSt (Validate ToASCII u) st = st
  /\ pkg (execSt (Validate ToASCII u) st) = pkg st
  /\ (forall l : positive,
        heap (execSt (Validate ToASCII u) st) !! l = heap st !! l)
  /\ Validate ToASCII u st = (evalSt (Validate ToASCII u) st, st).
Proof.
  unfold execSt, evalSt; rewrite Validate_run; cbn [fst snd]; auto.
Qed.

(** C10. The result of [Validate] depends on the Email and Password fields
    only: two users that agree on both get the same result, whatever their
    Metadata fields and whatever the metadata maps hold. *)
Theorem Validate_ignores_Metadata (ToASCII : string -> option string)
    (u1 u2 : User) (st1 st2 : Store) :
  Email u1 = Email u2 ->
  Password u1 = Password u2 ->
  pkg st1 = pkg st2 ->
  evalSt (Validate ToASCII u1) st1 = evalSt (Validate ToASCII u2) st2.
Proof.
  intros He Hp Hv; unfold evalSt; rewrite !Validate_run; cbn [fst].
  rewrite He, Hp.
  now rewrite (isEmail_reads_pkg ToASCII (Email u2) st1 st2 Hv).
Qed.

Lemma Validate_ignores_Metadata_witness :
  evalSt (Validate Puny.ToASCII (sampleUser "12345678" None)) (initStore ∅)
  = evalSt (Validate Puny.ToASCII (sampleUser "12345678" (Some 1%positive)))
           (initStore sampleHeap).
Proof.
  apply (Validate_ignores_Metadata Puny.ToASCII
           (sampleUser "12345678" None)
           (sampleUser "12345678" (Some 1%positive))
           (initStore ∅) (initStore sampleHeap));
    reflexivity.
Defined.

(** ** Acceptance and rejection by [isEmail] *)

Section Decisions.

Variable ToASCII : string -> option string.

Lemma userDotRegexp_dotBad s : MatchString (userDotRegexp pkgInit) s = dotBad s.
Proof.
  apply eq_true_iff_eq; rewrite userDotRegexp_spec; unfold dotBad.
  rewrite !orb_true_iff; tauto.
Qed.

Lemma userRegexp_all s :
  MatchString (userRegexp pkgInit) s = negb (isEmpty s) && all userChar s.
Proof.
  apply eq_true_iff_eq; rewrite userRegexp_spec, andb_true_iff, negb_true_iff.
  tauto.
Qed.

Lemma userChar_not_at s : all userChar s = true -> count at_ s = O.
Proof.
  induction s as [|a s IH]; [reflexivity|].
  cbn [all count]; intros H; apply andb_true_iff in H as [Ha Hs].
  destruct (Ascii.eqb_spec a at_) as [->|_]; [discriminate Ha | now apply IH].
Qed.

Lemma Split_email local host :
  count at_ local = O -> count at_ host = O ->
  Split (local ++ String at_ host) atSeparator = [local; host].
Proof.
  intros Hl Hh; unfold atSeparator.
  change "@" with (String at_ "").
  now rewrite (Split_at at_ local host Hl), (Split_none at_ host Hh).
Qed.

Lemma Split_host domain ext :
  count dot domain = O -> count dot ext = O ->
  Split (domain ++ String dot ext) dotSeparator = [domain; ext].
Proof.
  intros Hd He; unfold dotSeparator.
  change "." with (String dot "").
  now rewrite (Split_at dot domain ext Hd), (Split_none dot ext He).
Qed.

Lemma isEmail_at_count email st :
  count at_ email <> 1%nat -> evalSt (isEmail ToASCII email) st = false.
Proof.
  intros H; apply isEmail_not_two_parts.
  unfold atSeparator; change "@" with (String at_ "").
  now rewrite Split_two.
Qed.

Lemma isEmail_dot_count email local host st :
  Split email atSeparator = [local; host] ->
  count dot host <> 1%nat ->
  evalSt (isEmail ToASCII email) st = false.
Proof.
  intros Hes H; apply (isEmail_host_not_two_parts _ _ _ _ _ Hes).
  unfold dotSeparator; change "." with (String dot "").
  now rewrite Split_two.
Qed.

(** Once the address splits as [local@host], either the host splits in two
    and the remaining checks decide, or the address is rejected. *)
Lemma isEmail_cases email local host st :
  Split email atSeparator = [local; host] ->
  evalSt (isEmail ToASCII email) st = false
  \/ exists domain ext,
       Split host dotSeparator = [domain; ext]
       /\ evalSt (isEmail ToASCII email) st
          = checksAfterSplit ToASCII (pkg st) local host domain ext.
Proof.
  intros Hes.
  destruct (Split host dotSeparator) as [|domain [|ext [|x rest]]] eqn:Hhs.
  - left; apply (isEmail_host_not_two_parts _ _ _ _ _ Hes); now rewrite Hhs.
  - left; apply (isEmail_host_not_two_parts _ _ _ _ _ Hes); now rewrite Hhs.
  - right; exists domain, ext; split; [reflexivity|].
    now apply isEmail_split.
  - left; apply (isEmail_host_not_two_parts _ _ _ _ _ Hes); now rewrite Hhs.
Qed.

Lemma isEmail_local_too_long email local host st :
  Split email atSeparator = [local; host] ->
  maxLocalLen < len local ->
  evalSt (isEmail ToASCII email) st = false.
Proof.
  intros Hes Hlen.
  destruct (isEmail_cases _ _ _ st Hes) as [H | (domain & ext & _ & ->)];
    [exact H|].
  unfold checksAfterSplit.
  destruct (Z.leb_spec (len local) maxLocalLen) as [Hle|_]; [lia|].
  now rewrite andb_false_r.
Qed.

Lemma isEmail_puny_dotBad email local host punyLocal h :
  Split email atSeparator = [local; host] ->
  ToASCII local = Some punyLocal ->
  dotBad punyLocal = true ->
  evalSt (isEmail ToASCII email) (initStore h) = false.
Proof.
  intros Hes Hp Hbad.
  destruct (isEmail_cases _ _ _ (initStore h) Hes)
    as [H | (domain & ext & _ & ->)]; [exact H|].
  unfold checksAfterSplit; rewrite Hp; cbn [pkg initStore].
  rewrite userDotRegexp_dotBad, Hbad.
  destruct (ToASCII host); cbn [negb andb]; now rewrite andb_false_r.
Qed.

Lemma isEmail_accepts h local domain ext punyLocal punyHost :
  count at_ local = O -> count at_ domain = O -> count at_ ext = O ->
  count dot domain = O -> count dot ext = O ->
  isEmpty local = false -> len local <= maxLocalLen ->
  isEmpty domain = false -> len domain <= maxDomainLen ->
  isEmpty ext = false -> len ext <= maxTLDLen ->
  ToASCII local = Some punyLocal ->
  ToASCII (domain ++ String dot ext) = Some punyHost ->
  dotBad punyLocal = false ->
  isEmpty punyLocal = false -> all userChar punyLocal = true ->
  MatchString (hostRegexp pkgInit) punyHost = true ->
  evalSt (isEmail ToASCII (local ++ String at_ (domain ++ String dot ext)))
         (initStore h) = true.
Proof.
  intros Hl Hd He Hdd Hde Hln Hll Hdn Hdl Hen Hel Hpl Hph Hbad Hpn Hpc Hhost.
  rewrite (isEmail_split ToASCII _ local (domain ++ String dot ext) domain ext).
  - unfold checksAfterSplit; cbn [pkg initStore].
    rewrite Hpl, Hph, userDotRegexp_dotBad, userRegexp_all.
    rewrite Hbad, Hpn, Hpc, Hhost, Hln, Hdn, Hen.
    destruct (Z.leb_spec (len local) maxLocalLen); [|lia].
    destruct (Z.leb_spec (len domain) maxDomainLen); [|lia].
    destruct (Z.leb_spec (len ext) maxTLDLen); [|lia].
    reflexivity.
  - apply Split_email; [exact Hl|].
    rewrite count_append; cbn [count]; rewrite Hd, He; reflexivity.
  - now apply Split_host.
Qed.

End Decisions.

(** ** The claims about [isEmail] *)

(** C4. A string that does not contain exactly one [@] (none, or two or
    more; the empty string is such a string) is rejected by [isEmail]. *)
Theorem isEmail_needs_one_at (ToASCII : string -> option string)
    (email : string) (st : Store) :
  count at_ email <> 1%nat ->
  evalSt (isEmail ToASCII email) st = false.
Proof. apply isEmail_at_count. Qed.

Lemma isEmail_needs_one_at_witness :
  evalSt (isEmail Puny.ToASCII "") (initStore ∅) = false
  /\ evalSt (isEmail Puny.ToASCII "a@b@c.com") (initStore ∅) = false
  /\ evalSt (isEmail Puny.ToASCII "example.com") (initStore ∅) = false.
Proof.
  split; [|split];
    apply (isEmail_needs_one_at Puny.ToASCII _ (initStore ∅));
    vm_compute; lia.
Defined.

(** C2. In an address with a single [@], when the host (the part after the
    [@]) does not split on [.] into exactly two parts, that is, when it
    holds no dot or more than one, [isEmail] returns false. *)
Theorem isEmail_host_one_dot (ToASCII : string -> option string)
    (local host : string) (st : Store) :
  count at_ local = O ->
  count at_ host = O ->
  length (Split host dotSeparator) <> 2%nat \/ count dot host <> 1%nat ->
  evalSt (isEmail ToASCII (local ++ String at_ host)) st = false.
Proof.
  intros Hl Hh Hdots.
  pose proof (Split_email local host Hl Hh) as Hes.
  destruct Hdots as [H | H].
  - now apply (isEmail_host_not_two_parts _ _ _ _ _ Hes).
  - now apply (isEmail_dot_count _ _ _ _ _ Hes).
Qed.

Lemma isEmail_host_one_dot_witness :
  evalSt (isEmail Puny.ToASCII "a@bcom") (initStore ∅) = false
  /\ evalSt (isEmail Puny.ToASCII "user@mail.corp.example.com") (initStore ∅)
     = false.
Proof.
  split.
  - apply (isEmail_host_one_dot Puny.ToASCII "a" "bcom" (initStore ∅));
      [reflexivity | reflexivity | right; vm_compute; lia].
  - apply (isEmail_host_one_dot Puny.ToASCII "user" "mail.corp.example.com"
             (initStore ∅));
      [reflexivity | reflexivity | left; vm_compute; lia].
Defined.

(** C3, as the code has it. When the conversion returns ["user"] and
    ["example.com"] unchanged, [isEmail] accepts ["user@example.com"]; it
    rejects ["a.b+c@sub.example.io"], whose host holds two dots, whatever
    the conversion does. *)
Theorem isEmail_examples (ToASCII : string -> option string)
    (h : gmap positive (gmap string any)) :
  fixes ToASCII "user" ->
  fixes ToASCII "example.com" ->
  evalSt (isEmail ToASCII "user@example.com") (initStore h) = true
  /\ evalSt (isEmail ToASCII "a.b+c@sub.example.io") (initStore h) = false.
Proof.
  intros Hu He; split.
  - rewrite (isEmail_split ToASCII _ "user" "example.com" "example" "com");
      [|reflexivity|reflexivity].
    unfold checksAfterSplit; rewrite Hu, He; vm_compute; reflexivity.
  - apply (isEmail_host_not_two_parts ToASCII _ "a.b+c" "sub.example.io");
      [reflexivity | vm_compute; lia].
Qed.

Lemma isEmail_examples_witness :
  evalSt (isEmail Puny.ToASCII "user@example.com") (initStore ∅) = true
  /\ evalSt (isEmail Puny.ToASCII "a.b+c@sub.example.io") (initStore ∅) = false.
Proof.
  apply (isEmail_examples Puny.ToASCII ∅); reflexivity.
Defined.

(** C3 as stated fails: no conversion makes [isEmail] accept
    ["a.b+c@sub.example.io"]. *)
Lemma isEmail_subdomain_rejected :
  ~ (exists ToASCII : string -> option string,
       evalSt (isEmail ToASCII "user@example.com") (initStore ∅) = true
       /\ evalSt (isEmail ToASCII "a.b+c@sub.example.io") (initStore ∅) = true).
Proof.
  intros (conv & _ & H).
  rewrite (isEmail_host_not_two_parts conv _ "a.b+c" "sub.example.io") in H;
    [discriminate | reflexivity | vm_compute; lia].
Qed.

(** C5. Take an address that passes every other check: its local part is
    drawn from the class of userRegexp, has no leading, trailing or doubled
    dot and is returned unchanged by the conversion, and its host
    [domain.ext] passes the host checks. If the local part is 64 bytes long
    the address is accepted; if it is 65 bytes long it is rejected. *)
Theorem local_length_boundary (ToASCII : string -> option string)
    (h : gmap positive (gmap string any))
    (local domain ext punyHost : string) :
  all userChar local = true ->
  dotBad local = false ->
  fixes ToASCII local ->
  count at_ domain = O -> count dot domain = O ->
  count at_ ext = O -> count dot ext = O ->
  isEmpty domain = false -> len domain <= maxDomainLen ->
  isEmpty ext = false -> len ext <= maxTLDLen ->
  ToASCII (domain ++ String dot ext) = Some punyHost ->
  MatchString (hostRegexp pkgInit) punyHost = true ->
  (len local = 64 ->
   evalSt (isEmail ToASCII (local ++ String at_ (domain ++ String dot ext)))
          (initStore h) = true)
  /\ (len local = 65 ->
      evalSt (isEmail ToASCII (local ++ String at_ (domain ++ String dot ext)))
             (initStore h) = false).
Proof.
  intros Hc Hbad Hfix Had Hdd Hae Hde Hdn Hdl Hen Hel Hph Hhost.
  pose proof (userChar_not_at local Hc) as Hal.
  split; intros Hlen.
  - assert (Hne : isEmpty local = false).
    { destruct local; [discriminate Hlen | reflexivity]. }
    apply (isEmail_accepts ToASCII h local domain ext local punyHost);
      auto; unfold maxLocalLen; lia.
  - apply (isEmail_local_too_long ToASCII _ local (domain ++ String dot ext)).
    + apply Split_email; [exact Hal|].
      rewrite count_append; cbn [count]; rewrite Had, Hae; reflexivity.
    + unfold maxLocalLen; lia.
Qed.

Lemma local_length_boundary_witness :
  evalSt (isEmail Puny.ToASCII (local64 ++ "@b.com")) (initStore ∅) = true
  /\ evalSt (isEmail Puny.ToASCII (local65 ++ "@b.com")) (initStore ∅) = false.
Proof.
  split.
  - apply (local_length_boundary Puny.ToASCII ∅ local64 "b" "com" "b.com");
      try reflexivity; vm_compute; intros; discriminate.
  - apply (local_length_boundary Puny.ToASCII ∅ local65 "b" "com" "b.com");
      try reflexivity; vm_compute; intros; discriminate.
Defined.

(** C6. When the converted local part starts with a dot, ends with a dot or
    holds two dots in a row, [isEmail] returns false. [".a@b.com"],
    ["a.@b.com"] and ["a..b@c.com"] are rejected, the conversion leaving
    their local parts as they are whenever it succeeds on them. *)
Theorem isEmail_rejects_dotBad (ToASCII : string -> option string)
    (h : gmap positive (gmap string any)) :
  (forall local host punyLocal : string,
      count at_ local = O ->
      ToASCII local = Some punyLocal ->
      startsWith dot punyLocal = true \/ endsWith dot punyLocal = true
        \/ hasDouble dot punyLocal = true ->
      evalSt (isEmail ToASCII (local ++ String at_ host)) (initStore h) = false)
  /\ (keeps ToASCII ".a" ->
      evalSt (isEmail ToASCII ".a@b.com") (initStore h) = false)
  /\ (keeps ToASCII "a." ->
      evalSt (isEmail ToASCII "a.@b.com") (initStore h) = false)
  /\ (keeps ToASCII "a..b" ->
      evalSt (isEmail ToASCII "a..b@c.com") (initStore h) = false).
Proof.
  assert (Hgen : forall local host punyLocal,
             count at_ local = O -> ToASCII local = Some punyLocal ->
             dotBad punyLocal = true ->
             evalSt (isEmail ToASCII (local ++ String at_ host)) (initStore h)
             = false).
  { intros local host punyLocal Hl Hp Hbad.
    destruct (count at_ host) as [|k] eqn:Hh.
    - apply (isEmail_puny_dotBad ToASCII _ local host punyLocal);
        [now apply Split_email | exact Hp | exact Hbad].
    - apply isEmail_at_count.
      rewrite count_append; cbn [count]; rewrite Ascii.eqb_refl, Hl, Hh; lia. }
  assert (Hkeep : forall local host,
             count at_ local = O -> dotBad local = true ->
             keeps ToASCII local ->
             evalSt (isEmail ToASCII (local ++ String at_ host)) (initStore h)
             = false).
  { intros local host Hl Hbad Hk.
    destruct (ToASCII local) as [p|] eqn:Hp.
    - pose proof (Hk p Hp) as ->; now apply (Hgen local host local).
    - destruct (count at_ host) as [|k] eqn:Hh.
      + destruct (isEmail_cases ToASCII _ _ _ (initStore h)
                    (Split_email local host Hl Hh))
          as [H | (domain & ext & _ & ->)]; [exact H|].
        unfold checksAfterSplit; rewrite Hp; now rewrite andb_false_r.
      + apply isEmail_at_count.
        rewrite count_append; cbn [count]; rewrite Ascii.eqb_refl, Hl, Hh; lia. }
  split; [|split; [|split]].
  - intros local host punyLocal Hl Hp Hbad; apply (Hgen local host punyLocal Hl Hp).
    unfold dotBad; rewrite !orb_true_iff; tauto.
  - apply (Hkeep ".a" "b.com"); reflexivity.
  - apply (Hkeep "a." "b.com"); reflexivity.
  - apply (Hkeep "a..b" "c.com"); reflexivity.
Qed.

Lemma isEmail_rejects_dotBad_witness :
  evalSt (isEmail Puny.ToASCII ".a@b.com") (initStore ∅) = false
  /\ evalSt (isEmail Puny.ToASCII "a.@b.com") (initStore ∅) = false
  /\ evalSt (isEmail Puny.ToASCII "a..b@c.com") (initStore ∅) = false
  /\ evalSt (isEmail Puny.ToASCII "x.é.@b.com") (initStore ∅) = false.
Proof.
  pose proof (isEmail_rejects_dotBad Puny.ToASCII ∅) as (Hgen & Ha & Hb & Hc).
  split; [|split; [|split]].
  - apply Ha; intros p Hp; vm_compute in Hp; congruence.
  - apply Hb; intros p Hp; vm_compute in Hp; congruence.
  - apply Hc; intros p Hp; vm_compute in Hp; congruence.
  - apply (Hgen "x.é." "b.com" "x.xn--9ca.");
      [reflexivity | vm_compute; reflexivity | right; left; reflexivity].
Defined.

(** C9. The limits 64, 255 and 24 bound the byte lengths of the local part,
    the domain and the extension of the address as given, before any
    conversion. A local part of at most 64 code points that takes more than
    64 bytes is rejected; in general an address whose local part, domain or
    extension exceeds its limit in bytes is rejected, whatever the
    conversion. And an address that passes the checks is accepted even when
    the converted local part is longer than 64 bytes. *)
Theorem byte_limits_before_conversion (ToASCII : string -> option string)
    (h : gmap positive (gmap string any)) :
  (forall (st : Store) (local host : string),
      count at_ local = O ->
      Puny.RuneCountInString local <= 64 ->
      maxLocalLen < len local ->
      evalSt (isEmail ToASCII (local ++ String at_ host)) st = false)
  /\ (forall (st : Store) (local domain ext : string),
         count at_ local = O -> count dot domain = O ->
         maxLocalLen < len local \/ maxDomainLen < len domain
           \/ maxTLDLen < len ext ->
         evalSt (isEmail ToASCII
                   (local ++ String at_ (domain ++ String dot ext))) st = false)
  /\ (forall local domain ext punyLocal punyHost : string,
         count at_ local = O -> count at_ domain = O -> count at_ ext = O ->
         count dot domain = O -> count dot ext = O ->
         isEmpty local = false -> len local <= maxLocalLen ->
         isEmpty domain = false -> len domain <= maxDomainLen ->
         isEmpty ext = false -> len ext <= maxTLDLen ->
         ToASCII local = Some punyLocal ->
         ToASCII (domain ++ String dot ext) = Some punyHost ->
         dotBad punyLocal = false ->
         all userChar punyLocal = true ->
         MatchString (hostRegexp pkgInit) punyHost = true ->
         maxLocalLen < len punyLocal ->
         evalSt (isEmail ToASCII
                   (local ++ String at_ (domain ++ String dot ext)))
                (initStore h) = true).
Proof.
  assert (Hlong : forall st local host,
             count at_ local = O -> maxLocalLen < len local ->
             evalSt (isEmail ToASCII (local ++ String at_ host)) st = false).
  { intros st local host Hl Hlen.
    destruct (count at_ host) as [|k] eqn:Hh.
    - apply (isEmail_local_too_long ToASCII _ local host);
        [now apply Split_email | exact Hlen].
    - apply isEmail_at_count.
      rewrite count_append; cbn [count]; rewrite Ascii.eqb_refl, Hl, Hh; lia. }
  split; [|split].
  - intros st local host Hl _ Hlen; now apply Hlong.
  - intros st local domain ext Hl Hdd [Hlen | Hlen]; [now apply Hlong|].
    set (host := domain ++ String dot ext).
    destruct (count at_ host) as [|k] eqn:Hh.
    + pose proof (Split_email local host Hl Hh) as Hes.
      destruct (isEmail_cases ToASCII _ _ _ st Hes)
        as [H | (domain' & ext' & Hhs & ->)]; [exact H|].
      unfold host, dotSeparator in Hhs; change "." with (String dot "") in Hhs.
      rewrite (Split_at dot domain ext Hdd) in Hhs.
      injection Hhs as <- Hext.
      apply Split_one_inv in Hext as [<- _].
      unfold checksAfterSplit.
      destruct (Z.leb_spec (len domain) maxDomainLen);
        destruct (Z.leb_spec (len ext) maxTLDLen); try lia;
        rewrite ?andb_false_r; reflexivity.
    + apply isEmail_at_count.
      rewrite count_append; cbn [count]; rewrite Ascii.eqb_refl, Hl, Hh; lia.
  - intros local domain ext punyLocal punyHost
           Hl Hd He Hdd Hde Hln Hll Hdn Hdl Hen Hel Hpl Hph Hbad Hpc Hhost Hlong'.
    apply (isEmail_accepts ToASCII h local domain ext punyLocal punyHost);
      auto.
    destruct punyLocal; [|reflexivity].
    unfold len, maxLocalLen in Hlong'; simpl in Hlong'; lia.
Qed.

Lemma byte_limits_before_conversion_witness :
  evalSt (isEmail Puny.ToASCII (wideLocal ++ "@b.com")) (initStore ∅) = false
  /\ evalSt (isEmail Puny.ToASCII (accentedLocal ++ "@b.com")) (initStore ∅)
     = true.
Proof.
  pose proof (byte_limits_before_conversion Puny.ToASCII ∅) as (Hwide & _ & Hacc).
  split.
  - apply (Hwide (initStore ∅) wideLocal "b.com");
      [reflexivity | vm_compute; discriminate | vm_compute; reflexivity].
  - apply (Hacc accentedLocal "b" "com"
                ("xn--" ++ Repeat "a" 62 ++ "-1pf") "b.com");
      try reflexivity; vm_compute; intros; discriminate.
Defined.

(** * Further properties of the package *)

(** ** Shared lemmas *)

Section MoreDecisions.

Variable ToASCII : string -> option string.

Lemma isEmpty_false_len s : isEmpty s = false <-> 1 <= len s.
Proof.
  destruct s; unfold len; simpl; split; intros; try lia; congruence.
Qed.

Lemma len_append a b : len (a ++ b) = len a + len b.
Proof. unfold len; rewrite length_append; lia. Qed.

Lemma len_String c s : len (String c s) = 1 + len s.
Proof. unfold len; cbn [String.length]; lia. Qed.

Lemma count_email local host :
  count at_ (local ++ String at_ host) = S (count at_ local + count at_ host).
Proof. rewrite count_append; cbn [count]; rewrite Ascii.eqb_refl; lia. Qed.

(** An accepted address [local@host] has no other [@]. *)
Lemma accepted_one_at local host st :
  evalSt (isEmail ToASCII (local ++ String at_ host)) st = true ->
  count at_ local = O /\ count at_ host = O.
Proof.
  intros H.
  destruct (Nat.eq_dec (count at_ (local ++ String at_ host)) 1%nat) as [E | E].
  - rewrite count_email in E; lia.
  - rewrite (isEmail_at_count ToASCII _ st E) in H; discriminate.
Qed.

(** What acceptance means, in terms of the two splits. *)
Lemma isEmail_true_inv email st :
  evalSt (isEmail ToASCII email) st = true ->
  exists local host domain ext,
    Split email atSeparator = [local; host]
    /\ Split host dotSeparator = [domain; ext]
    /\ checksAfterSplit ToASCII (pkg st) local host domain ext = true.
Proof.
  intros H.
  destruct (Split email atSeparator) as [|local [|host [|x rest]]] eqn:Hes;
    try (rewrite isEmail_not_two_parts in H; [discriminate | rewrite Hes; simpl; lia]).
  destruct (isEmail_cases ToASCII _ _ _ st Hes) as [E | (domain & ext & Hhs & E)];
    rewrite E in H; [discriminate|].
  now exists local, host, domain, ext.
Qed.

(** The answer on [local@domain.ext], the named parts being free of the
    separator that precedes them. *)
Lemma isEmail_of_parts local domain ext st :
  count at_ local = O -> count dot domain = O ->
  evalSt (isEmail ToASCII (local ++ String at_ (domain ++ String dot ext))) st
  = (count at_ domain =? 0)%nat && (count at_ ext =? 0)%nat
    && (count dot ext =? 0)%nat
    && checksAfterSplit ToASCII (pkg st) local
         (domain ++ String dot ext) domain ext.
Proof.
  intros Hl Hdd; set (host := domain ++ String dot ext).
  assert (Hah : count at_ host = (count at_ domain + count at_ ext)%nat).
  { unfold host; rewrite count_append; cbn [count].
    destruct (Ascii.eqb_spec dot at_) as [E|_]; [discriminate E | lia]. }
  destruct (count at_ host) as [|k] eqn:Hh.
  - assert (Had : count at_ domain = O) by lia.
    assert (Hae : count at_ ext = O) by lia.
    rewrite Had, Hae; cbn [Nat.eqb andb].
    pose proof (Split_email local host Hl Hh) as Hes.
    destruct (count dot ext) as [|j] eqn:Hde; cbn [Nat.eqb andb].
    + apply isEmail_split; [exact Hes | now apply Split_host].
    + apply (isEmail_dot_count ToASCII _ _ _ _ Hes).
      unfold host; rewrite count_append; cbn [count].
      rewrite Ascii.eqb_refl, Hdd, Hde; lia.
  - rewrite isEmail_at_count; [|rewrite count_email; lia].
    destruct (count at_ domain), (count at_ ext); cbn [Nat.eqb andb];
      try reflexivity; lia.
Qed.

Lemma checksAfterSplit_true v local host domain ext :
  checksAfterSplit ToASCII v local host domain ext = true <->
  isEmpty local = false /\ len local <= maxLocalLen
  /\ isEmpty domain = false /\ len domain <= maxDomainLen
  /\ isEmpty ext = false /\ len ext <= maxTLDLen
  /\ exists punyLocal punyHost,
       ToASCII local = Some punyLocal /\ ToASCII host = Some punyHost
       /\ MatchString (userDotRegexp v) punyLocal = false
       /\ MatchString (userRegexp v) punyLocal = true
       /\ MatchString (hostRegexp v) punyHost = true.
Proof.
  unfold checksAfterSplit.
  rewrite !andb_true_iff, !negb_true_iff, !Z.leb_le.
  destruct (ToASCII local) as [pl|], (ToASCII host) as [ph|].
  - rewrite !andb_true_iff, negb_true_iff; split.
    + intros [[[[[[? ?] ?] ?] ?] ?] [[? ?] ?]]; repeat split; auto.
      exists pl, ph; auto.
    + intros (? & ? & ? & ? & ? & ? & pl' & ph' & E1 & E2 & ? & ? & ?).
      injection E1 as <-; injection E2 as <-; auto 10.
  - split; [intros [_ ?]; discriminate|].
    intros (_ & _ & _ & _ & _ & _ & ? & ? & _ & ? & _); discriminate.
  - split; [intros [_ ?]; discriminate|].
    intros (_ & _ & _ & _ & _ & _ & ? & ? & ? & _); discriminate.
  - split; [intros [_ ?]; discriminate|].
    intros (_ & _ & _ & _ & _ & _ & ? & ? & ? & _); discriminate.
Qed.

Lemma userChar_nonSpace c : userChar c = true -> nonSpace c = true.
Proof.
  destruct c as [[] [] [] [] [] [] [] []]; vm_compute; intros H;
    first [reflexivity | discriminate H].
Qed.

Lemma all_userChar_nonSpace s : all userChar s = true -> all nonSpace s = true.
Proof.
  induction s as [|c s IH]; [reflexivity|]; cbn [all].
  rewrite !andb_true_iff; intros [Hc Hs].
  split; [now apply userChar_nonSpace | now apply IH].
Qed.

End MoreDecisions.

(** ** The compiled patterns *)

(** X1. The languages of the three package patterns. userRegexp accepts the
    non-empty strings whose bytes are all in its class; userDotRegexp finds
    a match exactly in the strings that start with a dot, end with a dot or
    hold two dots in a row; hostRegexp accepts the strings free of white
    space that hold a dot with at least one byte before it and one after. *)
Theorem patterns_language (s : string) :
  MatchString (userRegexp pkgInit) s = negb (isEmpty s) && all userChar s
  /\ MatchString (userDotRegexp pkgInit) s
     = startsWith dot s || endsWith dot s || hasDouble dot s
  /\ (MatchString (hostRegexp pkgInit) s = true <->
      all nonSpace s = true
      /\ exists a b, s = a ++ String dot b /\ a <> "" /\ b <> "").
Proof.
  split; [|split].
  { apply eq_true_iff_eq.
    rewrite userRegexp_spec, andb_true_iff, negb_true_iff; tauto. }
  { apply eq_true_iff_eq.
    rewrite userDotRegexp_spec, !orb_true_iff; tauto. }
  split.
  - intros H; apply hostRegexp_spec in H as (a & b & -> & Ha & Hb & Hsa & Hsb).
    split.
    + rewrite all_append; cbn [all]; now rewrite Hsa, Hsb.
    + exists a, b; repeat split; intros ->; discriminate.
  - intros (Hs & a & b & -> & Ha & Hb).
    rewrite all_append in Hs; cbn [all] in Hs.
    apply andb_true_iff in Hs as [Hsa Hs]; apply andb_true_iff in Hs as [_ Hsb].
    apply hostRegexp_spec; exists a, b; repeat split; auto.
    + destruct a; [congruence | reflexivity].
    + destruct b; [congruence | reflexivity].
Qed.

(** ** [isEmail] *)

(** X2. [isEmail] accepts exactly the addresses of the form
    [local@domain.ext] in which the three parts hold no [@], the domain and
    the extension hold no dot, the parts are non-empty and at most 64, 255
    and 24 bytes long, both conversions succeed, the converted local part is
    a non-empty string over the class of userRegexp without a leading,
    trailing or doubled dot, and the converted host matches hostRegexp. *)
Theorem isEmail_accepts_iff (ToASCII : string -> option string)
    (h : gmap positive (gmap string any)) (email : string) :
  evalSt (isEmail ToASCII email) (initStore h) = true <->
  exists local domain ext punyLocal punyHost,
    email = local ++ String at_ (domain ++ String dot ext)
    /\ count at_ local = O /\ count at_ domain = O /\ count at_ ext = O
    /\ count dot domain = O /\ count dot ext = O
    /\ 1 <= len local <= maxLocalLen
    /\ 1 <= len domain <= maxDomainLen
    /\ 1 <= len ext <= maxTLDLen
    /\ ToASCII local = Some punyLocal
    /\ ToASCII (domain ++ String dot ext) = Some punyHost
    /\ dotBad punyLocal = false
    /\ isEmpty punyLocal = false
    /\ all userChar punyLocal = true
    /\ MatchString (hostRegexp pkgInit) punyHost = true.
Proof.
  split.
  - intros H.
    apply isEmail_true_inv in H as (local & host & domain & ext & Hes & Hhs & Hc).
    apply (Split_two_inv at_) in Hes as (-> & Hal & Hah).
    apply (Split_two_inv dot) in Hhs as (-> & Hdd & Hde).
    rewrite count_append in Hah; cbn [count] in Hah.
    apply checksAfterSplit_true in Hc
      as (Hln & Hll & Hdn & Hdl & Hen & Hel & pl & ph & Hpl & Hph & H1 & H2 & H3).
    cbn [pkg initStore] in H1, H2, H3.
    rewrite (userDotRegexp_dotBad ToASCII) in H1.
    rewrite (userRegexp_all ToASCII), andb_true_iff, negb_true_iff in H2.
    apply isEmpty_false_len in Hln, Hdn, Hen.
    exists local, domain, ext, pl, ph.
    repeat split; try tauto; try lia.
  - intros (local & domain & ext & pl & ph & -> & Hal & Had & Hae & Hdd & Hde
            & Hl & Hd & He & Hpl & Hph & Hbad & Hpn & Hpc & Hhost).
    apply (isEmail_accepts ToASCII h local domain ext pl ph); auto;
      try (apply isEmpty_false_len); lia.
Qed.

(** X3. Domain length boundary. In an address that passes every other
    check, a domain of 255 bytes is accepted and one of 256 bytes is
    rejected. *)
Theorem domain_length_boundary (ToASCII : string -> option string)
    (h : gmap positive (gmap string any))
    (local domain ext punyLocal punyHost : string) :
  count at_ local = O -> isEmpty local = false -> len local <= maxLocalLen ->
  count at_ domain = O -> count dot domain = O ->
  count at_ ext = O -> count dot ext = O ->
  isEmpty ext = false -> len ext <= maxTLDLen ->
  ToASCII local = Some punyLocal ->
  ToASCII (domain ++ String dot ext) = Some punyHost ->
  dotBad punyLocal = false -> isEmpty punyLocal = false ->
  all userChar punyLocal = true ->
  MatchString (hostRegexp pkgInit) punyHost = true ->
  (len domain = 255 ->
   evalSt (isEmail ToASCII (local ++ String at_ (domain ++ String dot ext)))
          (initStore h) = true)
  /\ (len domain = 256 ->
      evalSt (isEmail ToASCII (local ++ String at_ (domain ++ String dot ext)))
             (initStore h) = false).
Proof.
  intros Hal Hln Hll Had Hdd Hae Hde Hen Hel Hpl Hph Hbad Hpn Hpc Hhost.
  split; intros Hlen.
  - apply (isEmail_accepts ToASCII h local domain ext punyLocal punyHost);
      auto; [apply isEmpty_false_len | unfold maxDomainLen]; lia.
  - rewrite (isEmail_of_parts ToASCII local domain ext _ Hal Hdd).
    unfold checksAfterSplit.
    destruct (Z.leb_spec (len domain) maxDomainLen) as [Hle|_];
      [unfold maxDomainLen in Hle; lia|].
    now rewrite !andb_false_r.
Qed.

Lemma domain_length_boundary_witness :
  evalSt (isEmail Puny.ToASCII ("a@" ++ domain255 ++ ".com")) (initStore ∅) = true
  /\ evalSt (isEmail Puny.ToASCII ("a@" ++ domain256 ++ ".com")) (initStore ∅)
     = false.
Proof.
  split.
  - apply (domain_length_boundary Puny.ToASCII ∅ "a" domain255 "com" "a"
             (domain255 ++ ".com"));
      try reflexivity; vm_compute; intros; discriminate.
  - apply (domain_length_boundary Puny.ToASCII ∅ "a" domain256 "com" "a"
             (domain256 ++ ".com"));
      try reflexivity; vm_compute; intros; discriminate.
Defined.

(** X4. Extension length boundary. In an address that passes every other
    check, an extension of 24 bytes is accepted and one of 25 bytes is
    rejected. *)
Theorem tld_length_boundary (ToASCII : string -> option string)
    (h : gmap positive (gmap string any))
    (local domain ext punyLocal punyHost : string) :
  count at_ local = O -> isEmpty local = false -> len local <= maxLocalLen ->
  count at_ domain = O -> count dot domain = O ->
  count at_ ext = O -> count dot ext = O ->
  isEmpty domain = false -> len domain <= maxDomainLen ->
  ToASCII local = Some punyLocal ->
  ToASCII (domain ++ String dot ext) = Some punyHost ->
  dotBad punyLocal = false -> isEmpty punyLocal = false ->
  all userChar punyLocal = true ->
  MatchString (hostRegexp pkgInit) punyHost = true ->
  (len ext = 24 ->
   evalSt (isEmail ToASCII (local ++ String at_ (domain ++ String dot ext)))
          (initStore h) = true)
  /\ (len ext = 25 ->
      evalSt (isEmail ToASCII (local ++ String at_ (domain ++ String dot ext)))
             (initStore h) = false).
Proof.
  intros Hal Hln Hll Had Hdd Hae Hde Hdn Hdl Hpl Hph Hbad Hpn Hpc Hhost.
  split; intros Hlen.
  - apply (isEmail_accepts ToASCII h local domain ext punyLocal punyHost);
      auto; [apply isEmpty_false_len | unfold maxTLDLen]; lia.
  - rewrite (isEmail_of_parts ToASCII local domain ext _ Hal Hdd).
    unfold checksAfterSplit.
    destruct (Z.leb_spec (len ext) maxTLDLen) as [Hle|_];
      [unfold maxTLDLen in Hle; lia|].
    now rewrite !andb_false_r.
Qed.

Lemma tld_length_boundary_witness :
  evalSt (isEmail Puny.ToASCII ("a@b." ++ ext24)) (initStore ∅) = true
  /\ evalSt (isEmail Puny.ToASCII ("a@b." ++ ext25)) (initStore ∅) = false.
Proof.
  split.
  - apply (tld_length_boundary Puny.ToASCII ∅ "a" "b" ext24 "a" ("b." ++ ext24));
      try reflexivity; vm_compute; intros; discriminate.
  - apply (tld_length_boundary Puny.ToASCII ∅ "a" "b" ext25 "a" ("b." ++ ext25));
      try reflexivity; vm_compute; intros; discriminate.
Defined.

(** X5. When the conversion fails on the local part or on the host,
    [isEmail] rejects the address. *)
Theorem isEmail_conversion_failure (ToASCII : string -> option string)
    (local host : string) (st : Store) :
  count at_ local = O ->
  ToASCII local = None \/ ToASCII host = None ->
  evalSt (isEmail ToASCII (local ++ String at_ host)) st = false.
Proof.
  intros Hl Hfail.
  destruct (count at_ host) as [|k] eqn:Hh.
  - destruct (isEmail_cases ToASCII _ _ _ st (Split_email local host Hl Hh))
      as [H | (domain & ext & _ & ->)]; [exact H|].
    unfold checksAfterSplit.
    destruct Hfail as [-> | E]; [now rewrite andb_false_r|].
    rewrite E; destruct (ToASCII local); now rewrite andb_false_r.
  - apply isEmail_at_count; rewrite count_email; lia.
Qed.

Lemma isEmail_conversion_failure_witness :
  evalSt (isEmail failingConversion "user@example.com") (initStore ∅) = false.
Proof.
  apply (isEmail_conversion_failure failingConversion "user" "example.com"
           (initStore ∅)); [reflexivity | left; reflexivity].
Defined.

(** X6. An empty local part, an empty domain or an empty extension makes
    [isEmail] reject the address: ["@host"], ["local@.ext"] and
    ["local@domain."] are never accepted. *)
Theorem isEmail_empty_part (ToASCII : string -> option string) (st : Store) :
  (forall host : string,
      evalSt (isEmail ToASCII (String at_ host)) st = false)
  /\ (forall local ext : string,
         count at_ local = O ->
         evalSt (isEmail ToASCII (local ++ String at_ (String dot ext))) st
         = false)
  /\ (forall local domain : string,
         count at_ local = O -> count dot domain = O ->
         evalSt (isEmail ToASCII (local ++ String at_ (domain ++ String dot "")))
                st = false).
Proof.
  split; [|split].
  - intros host.
    destruct (evalSt (isEmail ToASCII (String at_ host)) st) eqn:H;
      [|reflexivity].
    apply isEmail_true_inv in H as (local & host' & domain & ext & Hes & _ & Hc).
    apply (Split_two_inv at_) in Hes as (Hes & Hal & _).
    destruct local as [|x local].
    + apply checksAfterSplit_true in Hc as (Hc & _); discriminate Hc.
    + simpl in Hes; injection Hes as <- _.
      cbn [count] in Hal; rewrite Ascii.eqb_refl in Hal; discriminate.
  - intros local ext Hl.
    change (String dot ext) with ("" ++ String dot ext).
    rewrite (isEmail_of_parts ToASCII local "" ext st Hl eq_refl).
    unfold checksAfterSplit; cbn [isEmpty negb]; now rewrite !andb_false_r.
  - intros local domain Hl Hdd.
    rewrite (isEmail_of_parts ToASCII local domain "" st Hl Hdd).
    unfold checksAfterSplit; cbn [isEmpty negb]; now rewrite !andb_false_r.
Qed.

Lemma isEmail_empty_part_witness :
  evalSt (isEmail Puny.ToASCII "a@.com") (initStore ∅) = false
  /\ evalSt (isEmail Puny.ToASCII "a@b.") (initStore ∅) = false.
Proof.
  pose proof (isEmail_empty_part Puny.ToASCII (initStore ∅)) as (_ & Hd & He).
  split.
  - apply (Hd "a" "com"); reflexivity.
  - apply (He "a" "b"); reflexivity.
Defined.

(** X7. An accepted address holds exactly one [@] and is between 5 and 345
    bytes long (at most 64 + 1 + 255 + 1 + 24, at least 1 + 1 + 1 + 1 + 1). *)
Theorem isEmail_accepted_bounds (ToASCII : string -> option string)
    (email : string) (st : Store) :
  evalSt (isEmail ToASCII email) st = true ->
  count at_ email = 1%nat /\ 5 <= len email <= 345.
Proof.
  intros H.
  apply isEmail_true_inv in H as (local & host & domain & ext & Hes & Hhs & Hc).
  apply (Split_two_inv at_) in Hes as (-> & Hal & Hah).
  apply (Split_two_inv dot) in Hhs as (-> & Hdd & Hde).
  apply checksAfterSplit_true in Hc as (Hln & Hll & Hdn & Hdl & Hen & Hel & _).
  apply isEmpty_false_len in Hln, Hdn, Hen.
  split; [rewrite count_email; lia|].
  rewrite len_append, len_String, len_append, len_String.
  unfold maxLocalLen, maxDomainLen, maxTLDLen in *; lia.
Qed.

Lemma isEmail_accepted_bounds_witness :
  count at_ "user@example.com" = 1%nat /\ 5 <= len "user@example.com" <= 345.
Proof.
  apply (isEmail_accepted_bounds Puny.ToASCII "user@example.com" (initStore ∅)).
  vm_compute; reflexivity.
Defined.

(** X8. With a conversion that leaves the local part and the host as they
    are whenever it succeeds on them, an accepted address holds no white
    space (tab, newline, form feed, carriage return or space). *)
Theorem isEmail_no_white_space (ToASCII : string -> option string)
    (h : gmap positive (gmap string any)) (local host : string) :
  keeps ToASCII local ->
  keeps ToASCII host ->
  evalSt (isEmail ToASCII (local ++ String at_ host)) (initStore h) = true ->
  all nonSpace (local ++ String at_ host) = true.
Proof.
  intros Hkl Hkh H.
  destruct (accepted_one_at ToASCII _ _ _ H) as [Hal Hah].
  destruct (isEmail_cases ToASCII _ _ _ (initStore h) (Split_email local host Hal Hah))
    as [E | (domain & ext & _ & E)]; rewrite E in H; [discriminate|].
  apply checksAfterSplit_true in H
    as (_ & _ & _ & _ & _ & _ & pl & ph & Hpl & Hph & _ & H2 & H3).
  cbn [pkg initStore] in H2, H3.
  pose proof (Hkl pl Hpl) as ->; pose proof (Hkh ph Hph) as ->.
  rewrite (userRegexp_all ToASCII), andb_true_iff in H2; destruct H2 as [_ H2].
  apply hostRegexp_spec in H3 as (a & b & -> & _ & _ & Hsa & Hsb).
  rewrite all_append; cbn [all]; rewrite all_append; cbn [all].
  rewrite (all_userChar_nonSpace _ H2), Hsa, Hsb; reflexivity.
Qed.

Lemma isEmail_no_white_space_witness :
  all nonSpace "user@example.com" = true.
Proof.
  apply (isEmail_no_white_space Puny.ToASCII ∅ "user" "example.com").
  - intros p Hp; vm_compute in Hp; congruence.
  - intros p Hp; vm_compute in Hp; congruence.
  - vm_compute; reflexivity.
Defined.

(** X9. The checks on the local part and on the host do not interact: when
    [l1@h1] and [l2@h2] are both accepted, so is [l1@h2]. *)
Theorem isEmail_parts_independent (ToASCII : string -> option string)
    (st : Store) (l1 h1 l2 h2 : string) :
  evalSt (isEmail ToASCII (l1 ++ String at_ h1)) st = true ->
  evalSt (isEmail ToASCII (l2 ++ String at_ h2)) st = true ->
  evalSt (isEmail ToASCII (l1 ++ String at_ h2)) st = true.
Proof.
  intros H1 H2.
  destruct (accepted_one_at ToASCII _ _ _ H1) as [Hal1 Hah1].
  destruct (accepted_one_at ToASCII _ _ _ H2) as [Hal2 Hah2].
  destruct (isEmail_cases ToASCII _ _ _ st (Split_email l1 h1 Hal1 Hah1))
    as [E | (d1 & e1 & _ & E)]; rewrite E in H1; [discriminate|].
  destruct (isEmail_cases ToASCII _ _ _ st (Split_email l2 h2 Hal2 Hah2))
    as [E' | (d2 & e2 & Hhs & E')]; rewrite E' in H2; [discriminate|].
  rewrite (isEmail_split ToASCII _ l1 h2 d2 e2 st (Split_email l1 h2 Hal1 Hah2) Hhs).
  apply checksAfterSplit_true in H1
    as (? & ? & _ & _ & _ & _ & pl & _ & Hpl & _ & ? & ? & _).
  apply checksAfterSplit_true in H2
    as (_ & _ & ? & ? & ? & ? & _ & ph & _ & Hph & _ & _ & ?).
  apply checksAfterSplit_true; repeat split; auto.
  exists pl, ph; auto.
Qed.

Lemma isEmail_parts_independent_witness :
  evalSt (isEmail Puny.ToASCII "user@b.org") (initStore ∅) = true.
Proof.
  apply (isEmail_parts_independent Puny.ToASCII (initStore ∅)
           "user" "example.com" "a.b+c" "b.org");
    vm_compute; reflexivity.
Defined.

(** X10. [isEmail] consults the conversion on the local part and on the
    host only: two conversions that agree on these two strings give the same
    answer on [local@host]. *)
Theorem isEmail_conversion_agree (conv1 conv2 : string -> option string)
    (local host : string) (st : Store) :
  count at_ local = O -> count at_ host = O ->
  conv1 local = conv2 local ->
  conv1 host = conv2 host ->
  evalSt (isEmail conv1 (local ++ String at_ host)) st
  = evalSt (isEmail conv2 (local ++ String at_ host)) st.
Proof.
  intros Hl Hh El Eh.
  pose proof (Split_email local host Hl Hh) as Hes.
  destruct (Split host dotSeparator) as [|domain [|ext [|x rest]]] eqn:Hhs;
    try (rewrite !(isEmail_host_not_two_parts _ _ _ _ _ Hes);
         [reflexivity | rewrite Hhs; simpl; lia | rewrite Hhs; simpl; lia]).
  rewrite !(isEmail_split _ _ _ _ _ _ st Hes Hhs).
  unfold checksAfterSplit; now rewrite El, Eh.
Qed.

Lemma isEmail_conversion_agree_witness :
  evalSt (isEmail Puny.ToASCII "user@example.com") (initStore ∅)
  = evalSt (isEmail Some "user@example.com") (initStore ∅).
Proof.
  apply (isEmail_conversion_agree Puny.ToASCII Some "user" "example.com"
           (initStore ∅)); reflexivity.
Defined.

(** ** [Validate] *)

(** X11. The password check counts bytes, not characters: with an accepted
    Email, a Password of fewer than 8 code points passes as soon as it takes
    8 bytes or more. *)
Theorem Validate_counts_bytes (ToASCII : string -> option string)
    (u : User) (st : Store) :
  evalSt (isEmail ToASCII (Email u)) st = true ->
  Puny.RuneCountInString (Password u) < 8 ->
  minPassLen <= len (Password u) ->
  evalSt (Validate ToASCII u) st = None.
Proof.
  intros He _ Hlen; unfold evalSt at 1; rewrite Validate_run; cbn [fst].
  rewrite He.
  destruct (Z.ltb_spec (len (Password u)) minPassLen); [lia | reflexivity].
Qed.

Lemma Validate_counts_bytes_witness :
  evalSt (Validate Puny.ToASCII (sampleUser widePassword None)) (initStore ∅)
  = None.
Proof.
  apply (Validate_counts_bytes Puny.ToASCII (sampleUser widePassword None)
           (initStore ∅)).
  - vm_compute; reflexivity.
  - vm_compute; reflexivity.
  - vm_compute; intros; discriminate.
Defined.
